(** * AR Food Viewer: the model-normalization engine of [app.js]

    A shallow embedding of [normalizeModel] and of its two orientation
    helpers.  JavaScript numbers are IEEE 754 binary64 values, so they are
    modelled by Rocq's primitive [float], whose operations are specified
    by [SpecFloat]: rounding, overflow to [infinity] and [nan] propagation
    are those of the running program. *)

From Stdlib Require Import ZArith Floats Bool List String Lia.
From Stdlib Require Import Permutation.
From Stdlib Require Uint63.
Import ListNotations.

Set Warnings "-inexact-float".

Local Open Scope float_scope.

(** ** JavaScript numbers

    The comparison [a > b] of the source is [b <? a]; both are false as
    soon as one operand is [nan].  [x === 0] is [x =? 0], true of both
    zeros. *)

Definition gt (a b : float) : bool := b <? a.

Definition strict_eq_zero (a : float) : bool := a =? 0.

(** The shapes of a binary64 value, read on its [SpecFloat] image. *)

Definition sf_is_nan (x : spec_float) : bool :=
  match x with S754_nan => true | _ => false end.

Definition sf_is_finite (x : spec_float) : bool :=
  match x with S754_zero _ | S754_finite _ _ _ => true | _ => false end.

Definition sf_is_zero (x : spec_float) : bool :=
  match x with S754_zero _ => true | _ => false end.

(** ** The [Math] built-ins called by the engine

    [Math.min] and [Math.max] follow ECMAScript 21.3.2.25 and 21.3.2.24:
    the arguments are scanned from left to right starting from
    [+Infinity] (resp. [-Infinity]); a [NaN] argument makes the result
    [NaN]; [-0] counts as smaller than [+0]. *)

Module Math.

Definition is_neg_zero (n : float) : bool :=
  match classify n with NZero => true | _ => false end.

Definition is_pos_zero (n : float) : bool :=
  match classify n with PZero => true | _ => false end.

Definition min_step (lowest number : float) : float :=
  let lowest := if is_neg_zero number && is_pos_zero lowest then neg_zero else lowest in
  if number <? lowest then number else lowest.

Fixpoint min_from (lowest : float) (coerced : list float) : float :=
  match coerced with
  | [] => lowest
  | number :: rest =>
      if is_nan number then nan else min_from (min_step lowest number) rest
  end.

Definition min (args : list float) : float := min_from infinity args.

Definition max_step (highest number : float) : float :=
  let highest := if is_pos_zero number && is_neg_zero highest then zero else highest in
  if gt number highest then number else highest.

Fixpoint max_from (highest : float) (coerced : list float) : float :=
  match coerced with
  | [] => highest
  | number :: rest =>
      if is_nan number then nan else max_from (max_step highest number) rest
  end.

Definition max (args : list float) : float := max_from neg_infinity args.

(** [Math.cbrt] is only "implementation-approximated" (ECMAScript
    21.3.2.9): a non-finite or zero argument is returned unchanged, and
    any other argument yields a Number approximating its real cube
    root.  The engine is therefore parameterised by the host's [cbrt],
    of which only this much is assumed. *)

Record cbrt_conforms (cbrt : float -> float) : Prop := {
  cbrt_special : forall n, is_finite n = false \/ is_zero n = true -> cbrt n = n;
  cbrt_number : forall n, is_finite n = true -> is_nan (cbrt n) = false
}.

(** A reference host: the integer cube root of the mantissa scaled by
    [2^(132 + e mod 3)], found by bisection, then rescaled. *)

Fixpoint icbrt_bisect (fuel : nat) (n lo hi : Z) : Z :=
  match fuel with
  | O => lo
  | S k =>
      let mid := ((lo + hi) / 2)%Z in
      if (mid * mid * mid <=? n)%Z then icbrt_bisect k n mid hi
      else icbrt_bisect k n lo mid
  end.

Definition icbrt (n : Z) : Z := icbrt_bisect 64 n 0 (2 ^ 63)%Z.

Definition cbrt_ref (n : float) : float :=
  match Prim2SF n with
  | S754_finite s m e =>
      let r := (e mod 3)%Z in
      let q := icbrt (Zpos m * 2 ^ (r + 132))%Z in
      let y := Z.ldexp (of_uint63 (Uint63.of_Z q)) ((e - r - 132) / 3)%Z in
      if s then - y else y
  | _ => n
  end.

End Math.

(** ** Normalization and orientation constants

    The three module-level [var]s of the source.  [TARGET_VOLUME] is
    computed once, from the two targets, when the script is evaluated. *)

Record Globals := {
  TARGET_HEIGHT : float;
  TARGET_WIDTH : float;
  TARGET_VOLUME : float
}.

Definition declare_targets (height width : float) : Globals :=
  {| TARGET_HEIGHT := height;
     TARGET_WIDTH := width;
     TARGET_VOLUME := height * width * height |}.

Definition globals : Globals := declare_targets 0.08 0.08.

(** ** The renderer boundary

    [modelViewer.getDimensions()] answers an object [{x, y, z}], or
    nothing.  What [normalizeModel] does to the outside world is the
    sequence of its console and [setAttribute] calls.  Attribute values
    and log arguments are kept structured: [Orientation ox oy oz] stands
    for the string [ox + 'deg ' + oy + 'deg ' + oz + 'deg'],
    [UniformScale v] for [s + ' ' + s + ' ' + s] with [s = v.toFixed(6)],
    and [Fixed k v] for [v.toFixed(k)]. *)

Module Dimensions.
Record t := make { x : float; y : float; z : float }.
End Dimensions.

Inductive js_dimensions :=
| js_null
| js_undefined
| js_object (dimensions : Dimensions.t).

Inductive console_arg :=
| Str (s : string)
| Num (v : float)
| Fixed (digits : nat) (v : float).

Inductive attribute_value :=
| Orientation (xdeg ydeg zdeg : float)
| UniformScale (v : float).

Inductive effect :=
| console_warn (message : string)
| console_log (args : list console_arg)
| setAttribute (name : string) (value : attribute_value).

Definition is_setAttribute (e : effect) : bool :=
  match e with setAttribute _ _ => true | _ => false end.

(** ** Orientation helpers *)

Definition rawZ_isTallest (w h d : float) : bool := gt d h && gt d w.

Definition rawX_isTallest (w h d : float) : bool := gt w h && gt w d.

(** Step 2 of [normalizeModel]: the six locals after the [if] / [else if]. *)

Record Upright := {
  orientX : float;
  orientY : float;
  orientZ : float;
  effectiveW : float;
  effectiveH : float;
  effectiveD : float
}.

Definition autoOrient (rawW rawH rawD : float) : Upright :=
  let orientX := 0 in
  let orientY := 0 in
  let orientZ := 0 in
  let effectiveW := rawW in
  let effectiveH := rawH in
  let effectiveD := rawD in
  if rawZ_isTallest rawW rawH rawD then
    {| orientX := -90; orientY := orientY; orientZ := orientZ;
       effectiveW := rawW; effectiveH := rawD; effectiveD := rawH |}
  else if rawX_isTallest rawW rawH rawD then
    {| orientX := orientX; orientY := orientY; orientZ := 90;
       effectiveW := rawH; effectiveH := rawW; effectiveD := rawD |}
  else
    {| orientX := orientX; orientY := orientY; orientZ := orientZ;
       effectiveW := effectiveW; effectiveH := effectiveH; effectiveD := effectiveD |}.

Definition rotation (u : Upright) : float * float * float :=
  (orientX u, orientY u, orientZ u).

Definition effective (u : Upright) : float * float * float :=
  (effectiveW u, effectiveH u, effectiveD u).

(** ** The normalization engine *)

Section Engine.

Variable cbrt : float -> float.
Variable g : Globals.

(** Steps 3 to 5: the three candidate scale factors. *)

Definition scaleByHeight (effectiveH : float) : float := TARGET_HEIGHT g / effectiveH.

Definition scaleByWidth (effectiveW : float) : float := TARGET_WIDTH g / effectiveW.

Definition currentVolume (effectiveW effectiveH effectiveD : float) : float :=
  effectiveW * effectiveH * effectiveD.

Definition scaleByVolume (effectiveW effectiveH effectiveD : float) : float :=
  cbrt (TARGET_VOLUME g / currentVolume effectiveW effectiveH effectiveD).

(** The most restrictive candidate, then the safety clamp. *)

Definition safetyClamp (finalScale : float) : float :=
  Math.max [0.01; Math.min [finalScale; 5.0]].

Definition finalScale (effectiveW effectiveH effectiveD : float) : float :=
  let finalScale :=
    Math.min [scaleByHeight effectiveH; scaleByWidth effectiveW;
              scaleByVolume effectiveW effectiveH effectiveD] in
  safetyClamp finalScale.

Definition skip_warning : string :=
  "[AR Food Viewer] Could not read model dimensions. Skipping normalization.".

Definition normalizeModel (dimensions : js_dimensions) : list effect :=
  match dimensions with
  | js_null | js_undefined => [console_warn skip_warning]
  | js_object dimensions =>
      if strict_eq_zero (Dimensions.x dimensions)
         && strict_eq_zero (Dimensions.y dimensions)
         && strict_eq_zero (Dimensions.z dimensions)
      then [console_warn skip_warning]
      else
        let rawW := Dimensions.x dimensions in
        let rawH := Dimensions.y dimensions in
        let rawD := Dimensions.z dimensions in
        let u := autoOrient rawW rawH rawD in
        let s := finalScale (effectiveW u) (effectiveH u) (effectiveD u) in
        [ console_log
            [Str "[AR Food Viewer] Raw dimensions (m):";
             Fixed 4 rawW; Fixed 4 rawH; Fixed 4 rawD];
          setAttribute "orientation" (Orientation (orientX u) (orientY u) (orientZ u));
          console_log
            [Str "[AR Food Viewer] Orientation correction:";
             Num (orientX u); Num (orientY u); Num (orientZ u)];
          console_log
            [Str "[AR Food Viewer] Effective dimensions (m):";
             Fixed 4 (effectiveW u); Fixed 4 (effectiveH u); Fixed 4 (effectiveD u)];
          console_log
            [Str "[AR Food Viewer] Scale factors — H:";
             Fixed 4 (scaleByHeight (effectiveH u));
             Str "W:"; Fixed 4 (scaleByWidth (effectiveW u));
             Str "V:";
             Fixed 4 (scaleByVolume (effectiveW u) (effectiveH u) (effectiveD u));
             Str "→ Final:"; Fixed 4 s];
          setAttribute "scale" (UniformScale s);
          console_log
            [Str "[AR Food Viewer] Normalization complete. Scale applied:";
             Fixed 6 s] ]
  end.

(** The listener installed by [initNormalization]: it runs once per
    ['load'] event of the viewer. *)

Definition on_load (dimensions : js_dimensions) : list effect :=
  console_log [Str "[AR Food Viewer] Model loaded successfully!"]
  :: normalizeModel dimensions.

End Engine.

(** What the renderer has been told by a run: the last value written to
    an attribute, if any. *)

Fixpoint attribute (name : string) (trace : list effect) : option attribute_value :=
  match trace with
  | [] => None
  | e :: rest =>
      match attribute name rest, e with
      | Some v, _ => Some v
      | None, setAttribute n v => if String.eqb n name then Some v else None
      | None, _ => None
      end
  end.

(** The viewer over its life: one run of the listener per ['load']
    event, in order, on the same element. *)

Definition session (cbrt : float -> float) (g : Globals)
    (loads : list js_dimensions) : list effect :=
  flat_map (on_load cbrt g) loads.

(** One load on the reference host, with the declared constants: what
    the renderer ends up with. *)

Definition run (w h d : float) : option attribute_value * option attribute_value :=
  let trace := on_load Math.cbrt_ref globals (js_object (Dimensions.make w h d)) in
  (attribute "orientation" trace, attribute "scale" trace).

(** ** The specification's vocabulary

    The words of the specification the code is compared with: a value
    clamped to a range, the minimum of a list of candidates, and the
    per-candidate floor of section 4.2 step 4. *)

Definition clamp (lo hi v : float) : float :=
  if v <? lo then lo else if hi <? v then hi else v.

Definition in_range (lo hi v : float) : Prop :=
  (lo <=? v) = true /\ (v <=? hi) = true.

Definition is_minimum (m : float) (candidates : list float) : Prop :=
  In m candidates /\ forall c, In c candidates -> (m <=? c) = true.

Definition floor_candidate (c : float) : float :=
  if (c <=? 0) || negb (is_finite c) then 0.01 else c.

Definition finalScale_floored (cbrt : float -> float) (g : Globals)
    (effectiveW effectiveH effectiveD : float) : float :=
  clamp 0.01 5.0
    (Math.min
       (map floor_candidate
          [scaleByHeight g effectiveH; scaleByWidth g effectiveW;
           scaleByVolume cbrt g effectiveW effectiveH effectiveD])).

(** No axis is strictly the tallest; two axes tie for tallest. *)

Definition rawY_isTallest (w h d : float) : bool := gt h w && gt h d.

Definition no_tallest_axis (w h d : float) : bool :=
  negb (rawZ_isTallest w h d) && negb (rawX_isTallest w h d)
    && negb (rawY_isTallest w h d).

Definition tie_for_tallest (w h d : float) : bool :=
  ((w =? h) && (d <=? h)) || ((w =? d) && (h <=? d)) || ((h =? d) && (w <=? d)).

(** A bounding box as the data model has it: three real numbers. *)

Definition is_real (v : float) : Prop := is_finite v = true.

Definition measurable (d : Dimensions.t) : Prop :=
  strict_eq_zero (Dimensions.x d) && strict_eq_zero (Dimensions.y d)
    && strict_eq_zero (Dimensions.z d) = false.

(** ** JavaScript strings

    A string is its sequence of UTF-16 code units.  [lit] reads an ASCII
    literal of the source. *)

Definition js_string := list N.

Definition lit (s : string) : js_string := map Ascii.N_of_ascii (list_ascii_of_string s).

Fixpoint js_eqb (a b : js_string) : bool :=
  match a, b with
  | [], [] => true
  | x :: a', y :: b' => N.eqb x y && js_eqb a' b'
  | _, _ => false
  end.

Definition is_ascii (c : N) : bool := (c <? 128)%N.

Definition is_ascii_upper (c : N) : bool := ((65 <=? c) && (c <=? 90))%N.

Definition is_ascii_lower (c : N) : bool := ((97 <=? c) && (c <=? 122))%N.

Definition lower_unit (c : N) : N := if is_ascii_upper c then (c + 32)%N else c.

(** The white space and line terminators that [String.prototype.trim]
    removes (ECMAScript 12.2 and 12.3), all in the basic plane. *)

Definition is_white_space (c : N) : bool :=
  existsb (N.eqb c)
    [9; 10; 11; 12; 13; 32; 160; 5760; 8232; 8233; 8239; 8287; 12288; 65279]%N
  || ((8192 <=? c) && (c <=? 8202))%N.

Fixpoint trim_start (s : js_string) : js_string :=
  match s with
  | [] => []
  | c :: rest => if is_white_space c then trim_start rest else s
  end.

Definition trim (s : js_string) : js_string := rev (trim_start (rev (trim_start s))).

(** [String.prototype.toLowerCase] follows the Unicode case tables, which
    are the host's.  Two facts about it are used: on an ASCII string it
    lowers each letter in place, and its result holds no ASCII capital. *)

Record toLowerCase_conforms (toLowerCase : js_string -> js_string) : Prop := {
  lower_ascii : forall s, forallb is_ascii s = true -> toLowerCase s = map lower_unit s;
  lower_no_capital : forall s, existsb is_ascii_upper (toLowerCase s) = false
}.

Definition toLowerCase_ref (s : js_string) : js_string := map lower_unit s.

(** ** Format model name for display

    [formatModelName]: the three [replace] calls.  [/\.glb$/i] matches the
    four last code units; without the [u] flag a code unit beyond ASCII
    never matches an ASCII letter.  [\w] is [[A-Za-z0-9_]] and [\b\w] a
    word character that starts the string or follows a non-word one; the
    callback upper-cases that one character. *)

Definition is_word (c : N) : bool :=
  ((48 <=? c) && (c <=? 57))%N || is_ascii_upper c || N.eqb c 95 || is_ascii_lower c.

Definition toUpperCase_word (c : N) : N := if is_ascii_lower c then (c - 32)%N else c.

Definition ends_with_glb (filename : js_string) : bool :=
  match rev filename with
  | b :: l :: g :: dot :: _ =>
      N.eqb dot 46 && N.eqb (lower_unit g) 103 && N.eqb (lower_unit l) 108
        && N.eqb (lower_unit b) 98
  | _ => false
  end.

Definition strip_glb (filename : js_string) : js_string :=
  if ends_with_glb filename then firstn (List.length filename - 4) filename else filename.

Definition separators_to_spaces (s : js_string) : js_string :=
  map (fun c => if N.eqb c 45 || N.eqb c 95 then 32%N else c) s.

Fixpoint capitalize_words (after_word : bool) (s : js_string) : js_string :=
  match s with
  | [] => []
  | c :: rest =>
      (if is_word c && negb after_word then toUpperCase_word c else c)
      :: capitalize_words (is_word c) rest
  end.

Definition formatModelName (filename : js_string) : js_string :=
  capitalize_words false (separators_to_spaces (strip_glb filename)).

(** A code unit that is neither [-] nor [_]. *)

Definition no_separator (c : N) : bool := negb (N.eqb c 45) && negb (N.eqb c 95).

(** Whether every word of a string starts with something else than a
    lower-case letter. *)

Fixpoint words_capitalized (after_word : bool) (s : js_string) : bool :=
  match s with
  | [] => true
  | c :: rest =>
      negb (is_word c && negb after_word && is_ascii_lower c)
      && words_capitalized (is_word c) rest
  end.

(** ** Restaurant configuration registry *)

Module Restaurant.
Record t := make {
  name : string;
  logo : string;
  primary : string;
  primaryDark : string;
  bg : string;
  surface : string
}.
End Restaurant.

Definition default_restaurant : Restaurant.t :=
  Restaurant.make "AR Food Viewer" "assets/logos/default.png"
    "#ff6b35" "#e55a2b" "#0e0e0e" "#1a1a1a".

Definition RESTAURANTS : list (js_string * Restaurant.t) :=
  [ (lit "default", default_restaurant);
    (lit "tajmahal",
     Restaurant.make "Taj Mahal Restaurant" "assets/logos/tajmahal.png"
       "#d4a843" "#b8922f" "#0d0d0d" "#1c1a17");
    (lit "sakura",
     Restaurant.make "Sakura Sushi" "assets/logos/sakura.png"
       "#e74c6f" "#c93a5a" "#0e0c0d" "#1c1719");
    (lit "greenleaf",
     Restaurant.make "Green Leaf Bistro" "assets/logos/greenleaf.png"
       "#4caf50" "#388e3c" "#0b0e0b" "#161c16");
    (lit "pizzanova",
     Restaurant.make "Pizza Nova" "assets/logos/pizzanova.png"
       "#e53935" "#c62828" "#0e0c0c" "#1c1616");
    (lit "bluefin",
     Restaurant.make "Blue Fin Seafood" "assets/logos/bluefin.png"
       "#2196f3" "#1976d2" "#0c0d0e" "#161a1e") ].

(** [RESTAURANTS] is an object literal: a key it does not own is looked
    up on [Object.prototype], whose properties (ECMAScript 20.1.3 and
    B.2.2, in a realm nobody has patched) are these.  All of them are
    functions or objects, hence truthy. *)

Definition Object_prototype : list js_string :=
  map lit
    [ "constructor"; "__defineGetter__"; "__defineSetter__"; "hasOwnProperty";
      "__lookupGetter__"; "__lookupSetter__"; "isPrototypeOf";
      "propertyIsEnumerable"; "toString"; "valueOf"; "__proto__";
      "toLocaleString" ]%string.

Inductive property_value :=
| own (config : Restaurant.t)
| inherited (key : js_string).

Fixpoint own_property (key : js_string) (object : list (js_string * Restaurant.t))
    : option Restaurant.t :=
  match object with
  | [] => None
  | (k, v) :: rest => if js_eqb key k then Some v else own_property key rest
  end.

Definition get_property (key : js_string) : option property_value :=
  match own_property key RESTAURANTS with
  | Some config => Some (own config)
  | None => if existsb (js_eqb key) Object_prototype then Some (inherited key) else None
  end.

(** ** URL parameter parsing

    [getParams], given what [params.get('r')] and [params.get('model')]
    answer: [None] is [null].  [null] and the empty string are falsy. *)

Definition or_else (value : option js_string) (fallback : js_string) : js_string :=
  match value with
  | Some (c :: rest) => c :: rest
  | _ => fallback
  end.

Module Params.
Record t := make { restaurant : js_string; model : js_string }.
End Params.

Section Init.

Variable toLowerCase : js_string -> js_string.

Definition getParams (r model : option js_string) : Params.t :=
  Params.make
    (trim (toLowerCase (or_else r (lit "default"))))
    (or_else model (lit "assets/Samosa.glb")).

(** The first two statements of [init]:
    [RESTAURANTS[params.restaurant] || RESTAURANTS.default]. *)

Definition init_config (r model : option js_string) : property_value :=
  match get_property (Params.restaurant (getParams r model)) with
  | Some value => value
  | None => own default_restaurant
  end.

(** The display name [init] derives from the model parameter. *)

Definition init_displayName (r model : option js_string) : js_string :=
  formatModelName (Params.model (getParams r model)).

End Init.

(** ** Logo load error fallback

    The logo element as [init] and [handleLogoError] touch it; an
    ['error'] event runs the handler in [onerror], if there is one. *)

Module Logo.
Record t := make { src : string; alt : string; onerror : bool }.
End Logo.

Definition handleLogoError (restaurantLogo : Logo.t) : Logo.t :=
  Logo.make "assets/logos/default.png" (Logo.alt restaurantLogo) false.

Definition init_logo (config : Restaurant.t) : Logo.t :=
  Logo.make (Restaurant.logo config) (Restaurant.name config ++ " Logo")%string true.

Definition logo_error (restaurantLogo : Logo.t) : Logo.t :=
  if Logo.onerror restaurantLogo then handleLogoError restaurantLogo
  else restaurantLogo.

(** ** Binary64 facts used by the development *)

Module F64.

(** *** Rounding never invents a NaN *)

Lemma iter_pos_inv {A} (P : A -> Prop) (f : A -> A) :
  (forall a, P a -> P (f a)) -> forall n a, P a -> P (iter_pos f n a).
Proof.
  intros Hf n; induction n as [n IH | n IH |]; intros a Ha; simpl; auto.
Qed.

Lemma shr_1_nonneg mrs : (0 <= shr_m mrs)%Z -> (0 <= shr_m (shr_1 mrs))%Z.
Proof.
  destruct mrs as [m r s]; simpl.
  destruct m as [| [p | p |] | p]; simpl; lia.
Qed.

Lemma shr_nonneg mrs e n :
  (0 <= shr_m mrs)%Z -> (0 <= shr_m (fst (shr mrs e n)))%Z.
Proof.
  intros H; destruct n; simpl; auto.
  apply (iter_pos_inv (fun r => (0 <= shr_m r)%Z)); auto using shr_1_nonneg.
Qed.

Lemma shr_record_of_loc_m m l : shr_m (shr_record_of_loc m l) = m.
Proof. destruct l as [| []]; reflexivity. Qed.

Lemma shr_fexp_nonneg p em m e l :
  (0 <= m)%Z -> (0 <= shr_m (fst (shr_fexp p em m e l)))%Z.
Proof.
  intros H; unfold shr_fexp; apply shr_nonneg; now rewrite shr_record_of_loc_m.
Qed.

Lemma round_nearest_even_nonneg m l :
  (0 <= m)%Z -> (0 <= round_nearest_even m l)%Z.
Proof.
  intros H; destruct l as [| []]; simpl; try lia.
  destruct (Z.even m); lia.
Qed.

Lemma binary_round_aux_not_nan p em s m e l :
  (0 <= m)%Z -> binary_round_aux p em s m e l <> S754_nan.
Proof.
  intros H; unfold binary_round_aux.
  pose proof (shr_fexp_nonneg p em m e l H) as H1.
  destruct (shr_fexp p em m e l) as [mrs' e']; simpl in H1.
  pose proof (shr_fexp_nonneg p em _ e' loc_Exact
                (round_nearest_even_nonneg _ (loc_of_shr_record mrs') H1)) as H2.
  destruct (shr_fexp p em _ e' loc_Exact) as [mrs'' e'']; simpl in H2.
  destruct (shr_m mrs''); try lia; try discriminate.
  destruct (_ <=? _)%Z; discriminate.
Qed.

Lemma binary_round_not_nan p em s m e : binary_round p em s m e <> S754_nan.
Proof.
  unfold binary_round.
  destruct (shl_align m e _) as [mz ez].
  apply binary_round_aux_not_nan; lia.
Qed.

Lemma binary_normalize_not_nan p em m e sz :
  binary_normalize p em m e sz <> S754_nan.
Proof.
  destruct m; simpl; try discriminate; apply binary_round_not_nan.
Qed.

(** *** The shapes of a binary64 value *)

Lemma SFcompare_refl x : x <> S754_nan -> SFcompare x x = Some Eq.
Proof.
  destruct x as [s | s | | s m e]; simpl; intros H; try congruence.
  - destruct s; reflexivity.
  - destruct s; rewrite Z.compare_refl, Pos.compare_cont_refl; reflexivity.
Qed.

Lemma is_nan_spec x : is_nan x = sf_is_nan (Prim2SF x).
Proof.
  unfold is_nan; rewrite FloatAxioms.eqb_spec; unfold SFeqb.
  destruct (Prim2SF x) as [s | s | | s m e] eqn:E; try reflexivity.
  - destruct s; reflexivity.
  - rewrite SFcompare_refl by discriminate; reflexivity.
Qed.

Lemma is_nan_true x : is_nan x = true -> x = nan.
Proof.
  rewrite is_nan_spec; intros H; apply Prim2SF_inj.
  destruct (Prim2SF x); try discriminate; reflexivity.
Qed.

Lemma is_zero_spec x : is_zero x = sf_is_zero (Prim2SF x).
Proof.
  unfold is_zero; rewrite FloatAxioms.eqb_spec; unfold SFeqb.
  change (Prim2SF zero) with (S754_zero false).
  destruct (Prim2SF x) as [s | s | | s m e]; simpl; try reflexivity;
    destruct s; reflexivity.
Qed.

Lemma is_infinity_spec x :
  is_infinity x = match Prim2SF x with S754_infinity _ => true | _ => false end.
Proof.
  unfold is_infinity; rewrite FloatAxioms.eqb_spec, abs_spec; unfold SFeqb.
  change (Prim2SF infinity) with (S754_infinity false).
  destruct (Prim2SF x) as [s | s | | s m e]; simpl; reflexivity.
Qed.

Lemma is_finite_spec x : is_finite x = sf_is_finite (Prim2SF x).
Proof.
  unfold is_finite; rewrite is_nan_spec, is_infinity_spec.
  destruct (Prim2SF x); reflexivity.
Qed.

(** *** The order of binary64 values *)

Ltac sign_cases :=
  repeat match goal with s : bool |- _ => destruct s end;
  simpl in *; try congruence.

Ltac cmp_step :=
  match goal with
  | H : context [Z.compare ?a ?b] |- _ => destruct (Z.compare_spec a b)
  | |- context [Z.compare ?a ?b] => destruct (Z.compare_spec a b)
  | H : context [PosDef.Pos.compare_cont Eq ?a ?b] |- _ =>
      change (PosDef.Pos.compare_cont Eq a b) with (Pos.compare a b) in *;
      destruct (Pos.compare_spec a b)
  | |- context [PosDef.Pos.compare_cont Eq ?a ?b] =>
      change (PosDef.Pos.compare_cont Eq a b) with (Pos.compare a b) in *;
      destruct (Pos.compare_spec a b)
  end.

Ltac cmp_cases :=
  repeat (cmp_step; simpl in *; subst; try congruence; try lia).

Ltac sf_order x y z :=
  destruct x as [? | ? | | ? ? ?], y as [? | ? | | ? ? ?], z as [? | ? | | ? ? ?];
  simpl; try reflexivity; try discriminate; sign_cases; cmp_cases.

Lemma SFcompare_antisym x y :
  SFcompare y x = option_map CompOpp (SFcompare x y).
Proof.
  destruct x as [? | ? | | ? ? ?], y as [? | ? | | ? ? ?];
    simpl; try reflexivity; sign_cases; cmp_cases.
Qed.

Lemma SFcompare_none x y :
  SFcompare x y = None <-> sf_is_nan x = true \/ sf_is_nan y = true.
Proof.
  destruct x as [? | ? | | ? ? ?], y as [? | ? | | ? ? ?]; simpl;
    intuition (try discriminate; auto).
Qed.

Lemma SFleb_trans x y z :
  SFleb x y = true -> SFleb y z = true -> SFleb x z = true.
Proof. unfold SFleb; sf_order x y z. Qed.


Lemma SFleb_ltb_trans x y z :
  SFleb x y = true -> SFltb y z = true -> SFltb x z = true.
Proof. unfold SFleb, SFltb; sf_order x y z. Qed.


Lemma leb_not_nan a b :
  (a <=? b) = true -> is_nan a = false /\ is_nan b = false.
Proof.
  rewrite leb_spec, !is_nan_spec; unfold SFleb.
  destruct (SFcompare _ _) eqn:E; try discriminate; intros _.
  destruct (Prim2SF a), (Prim2SF b); simpl in *; try discriminate; auto.
Qed.

Lemma ltb_asym a b : (a <? b) = true -> (b <? a) = false.
Proof.
  rewrite !ltb_spec; unfold SFltb.
  rewrite (SFcompare_antisym (Prim2SF a) (Prim2SF b)).
  destruct (SFcompare _ _) as [[] |]; simpl; congruence.
Qed.

Lemma ltb_leb a b : (a <? b) = true -> (a <=? b) = true.
Proof.
  rewrite ltb_spec, leb_spec; unfold SFltb, SFleb.
  destruct (SFcompare _ _) as [[] |]; congruence.
Qed.

Lemma leb_not_ltb a b : (a <=? b) = true -> (b <? a) = false.
Proof.
  rewrite ltb_spec, leb_spec; unfold SFltb, SFleb.
  rewrite (SFcompare_antisym (Prim2SF a) (Prim2SF b)).
  destruct (SFcompare _ _) as [[] |]; simpl; congruence.
Qed.

Lemma not_ltb_leb a b :
  is_nan a = false -> is_nan b = false -> (a <? b) = false -> (b <=? a) = true.
Proof.
  rewrite ltb_spec, leb_spec, !is_nan_spec; unfold SFltb, SFleb.
  rewrite (SFcompare_antisym (Prim2SF a) (Prim2SF b)).
  destruct (SFcompare _ _) as [[] |] eqn:E; simpl; try congruence.
  apply SFcompare_none in E; destruct E; congruence.
Qed.

Lemma leb_refl a : is_nan a = false -> (a <=? a) = true.
Proof.
  rewrite leb_spec, is_nan_spec; unfold SFleb; intros H.
  rewrite SFcompare_refl; [reflexivity |].
  destruct (Prim2SF a); discriminate.
Qed.

Lemma eqb_leb a b : (a =? b) = true -> (a <=? b) = true.
Proof.
  rewrite FloatAxioms.eqb_spec, leb_spec; unfold SFeqb, SFleb.
  destruct (SFcompare _ _) as [[] |]; congruence.
Qed.

Lemma eqb_sym a b : (a =? b) = (b =? a).
Proof.
  rewrite !FloatAxioms.eqb_spec; unfold SFeqb.
  rewrite (SFcompare_antisym (Prim2SF a) (Prim2SF b)).
  destruct (SFcompare _ _) as [[] |]; reflexivity.
Qed.

Lemma leb_trans a b c :
  (a <=? b) = true -> (b <=? c) = true -> (a <=? c) = true.
Proof. rewrite !leb_spec; apply SFleb_trans. Qed.


Lemma leb_ltb_trans a b c :
  (a <=? b) = true -> (b <? c) = true -> (a <? c) = true.
Proof. rewrite !ltb_spec, !leb_spec; apply SFleb_ltb_trans. Qed.

Lemma not_ltb_infinity a :
  is_nan a = false -> (a <? infinity) = false -> a = infinity.
Proof.
  rewrite ltb_spec, is_nan_spec; unfold SFltb; intros Hn H.
  apply Prim2SF_inj; change (Prim2SF infinity) with (S754_infinity false) in *.
  destruct (Prim2SF a) as [? | [] | | [] ? ?]; simpl in *; congruence.
Qed.


Lemma classify_zero a :
  match classify a with
  | PZero => Prim2SF a = S754_zero false
  | NZero => Prim2SF a = S754_zero true
  | _ => sf_is_zero (Prim2SF a) = false
  end.
Proof.
  rewrite classify_spec; unfold SF64classify, SFclassify.
  destruct (Prim2SF a) as [[] | [] | | [] ? ?]; try reflexivity;
    destruct (_ =? _)%Z; reflexivity.
Qed.

(** *** When a product or a quotient is NaN *)

Lemma SFdiv_core_binary_nonneg p em m1 e1 m2 e2 :
  (0 <= fst (fst (SFdiv_core_binary p em (Zpos m1) e1 (Zpos m2) e2)))%Z.
Proof.
  unfold SFdiv_core_binary.
  set (sh := (e1 - e2 - _)%Z).
  set (m' := match sh with Z0 => Zpos m1 | Zpos _ => Z.shiftl (Zpos m1) sh | Zneg _ => 0%Z end).
  assert (Hm' : (0 <= m')%Z).
  { unfold m'; destruct sh; try lia. apply Z.shiftl_nonneg; lia. }
  pose proof (Z.div_pos m' (Zpos m2) Hm' eq_refl) as Hq.
  unfold Z.div in Hq.
  destruct (Z.div_eucl m' (Zpos m2)) as [q r]; exact Hq.
Qed.

Lemma SFmul_nan x y :
  sf_is_nan (SF64mul x y)
  = sf_is_nan x || sf_is_nan y
    || (negb (sf_is_finite x) && sf_is_zero y) || (sf_is_zero x && negb (sf_is_finite y)).
Proof.
  destruct x as [? | ? | | sx mx ex], y as [? | ? | | sy my ey]; try reflexivity.
  unfold SF64mul, SFmul.
  pose proof (binary_round_aux_not_nan prec emax (xorb sx sy) (Zpos (mx * my))
                (ex + ey) loc_Exact ltac:(lia)) as H.
  destruct (binary_round_aux _ _ _ _ _ _); simpl; congruence.
Qed.

Lemma SFdiv_nan x y :
  sf_is_nan (SF64div x y)
  = sf_is_nan x || sf_is_nan y
    || (negb (sf_is_finite x) && negb (sf_is_finite y)) || (sf_is_zero x && sf_is_zero y).
Proof.
  destruct x as [? | ? | | sx mx ex], y as [? | ? | | sy my ey]; try reflexivity.
  unfold SF64div, SFdiv.
  pose proof (SFdiv_core_binary_nonneg prec emax mx ex my ey) as Hq.
  destruct (SFdiv_core_binary prec emax (Zpos mx) ex (Zpos my) ey) as [[mz ez] lz].
  pose proof (binary_round_aux_not_nan prec emax (xorb sx sy) mz ez lz Hq) as H.
  destruct (binary_round_aux _ _ _ _ _ _); simpl; congruence.
Qed.

Lemma is_finite_not_nan a : is_finite a = true -> is_nan a = false.
Proof. rewrite is_finite_spec, is_nan_spec; destruct (Prim2SF a); auto. Qed.


Lemma mul_nan a b :
  is_nan (a * b)
  = is_nan a || is_nan b
    || (negb (is_finite a) && is_zero b) || (is_zero a && negb (is_finite b)).
Proof.
  rewrite !is_nan_spec, !is_finite_spec, !is_zero_spec, mul_spec.
  apply SFmul_nan.
Qed.

Lemma div_nan a b :
  is_nan (a / b)
  = is_nan a || is_nan b
    || (negb (is_finite a) && negb (is_finite b)) || (is_zero a && is_zero b).
Proof.
  rewrite !is_nan_spec, !is_finite_spec, !is_zero_spec, div_spec.
  apply SFdiv_nan.
Qed.

Lemma mul_comm a b : a * b = b * a.
Proof.
  apply Prim2SF_inj; rewrite !mul_spec; unfold SF64mul, SFmul.
  destruct (Prim2SF a) as [? | ? | | ? mx ex], (Prim2SF b) as [? | ? | | ? my ey];
    try reflexivity; try (now rewrite xorb_comm).
  now rewrite xorb_comm, Pos.mul_comm, Z.add_comm.
Qed.

Lemma mul_zero a b :
  is_nan (a * b) = false -> is_zero a || is_zero b = true -> is_zero (a * b) = true.
Proof.
  rewrite !is_nan_spec, !is_zero_spec, mul_spec; unfold SF64mul, SFmul.
  destruct (Prim2SF a) as [? | ? | | ? mx ex], (Prim2SF b) as [? | ? | | ? my ey];
    simpl; congruence.
Qed.

Lemma div_by_zero a b :
  is_finite a = true -> is_zero a = false -> is_zero b = true ->
  is_infinity (a / b) = true.
Proof.
  rewrite is_finite_spec, !is_zero_spec, is_infinity_spec, div_spec.
  unfold SF64div, SFdiv.
  destruct (Prim2SF a) as [? | ? | | ? mx ex], (Prim2SF b) as [? | ? | | ? my ey];
    simpl; congruence.
Qed.

Lemma is_infinity_not_finite a : is_infinity a = true -> is_finite a = false.
Proof.
  rewrite is_infinity_spec, is_finite_spec; destruct (Prim2SF a); simpl; congruence.
Qed.

Lemma eqb_eq_nonzero a b : is_zero b = false -> (a =? b) = true -> a = b.
Proof.
  rewrite is_zero_spec, FloatAxioms.eqb_spec; unfold SFeqb; intros Hz H.
  apply Prim2SF_inj.
  destruct (Prim2SF a) as [? | ? | | ? mx ex], (Prim2SF b) as [? | ? | | ? my ey];
    simpl in *; try discriminate; sign_cases;
    destruct (Z.compare_spec ex ey); try discriminate;
    change (PosDef.Pos.compare_cont Eq mx my) with (Pos.compare mx my) in H;
    destruct (Pos.compare_spec mx my); simpl in H; try discriminate; congruence.
Qed.

Lemma not_ltb_eq a b :
  is_nan a = false -> is_nan b = false ->
  (a <? b) = false -> (b <? a) = false -> (a =? b) = true.
Proof.
  rewrite !ltb_spec, FloatAxioms.eqb_spec, !is_nan_spec; unfold SFltb, SFeqb.
  rewrite (SFcompare_antisym (Prim2SF a) (Prim2SF b)).
  destruct (SFcompare _ _) as [[] |] eqn:E; simpl; try congruence.
  apply SFcompare_none in E; destruct E; congruence.
Qed.

End F64.

(** ** Facts about the [Math] built-ins *)

Module MathFacts.
Import F64.

Lemma neg_zero_eq number : Math.is_neg_zero number = true -> number = neg_zero.
Proof.
  unfold Math.is_neg_zero; pose proof (classify_zero number) as H.
  destruct (classify number); try discriminate; intros _.
  now apply Prim2SF_inj.
Qed.

Lemma pos_zero_eq number : Math.is_pos_zero number = true -> number = zero.
Proof.
  unfold Math.is_pos_zero; pose proof (classify_zero number) as H.
  destruct (classify number); try discriminate; intros _.
  now apply Prim2SF_inj.
Qed.

Lemma min_step_spec lowest number :
  is_nan lowest = false -> is_nan number = false ->
  (Math.min_step lowest number = lowest \/ Math.min_step lowest number = number)
  /\ (Math.min_step lowest number <=? lowest) = true
  /\ (Math.min_step lowest number <=? number) = true.
Proof.
  intros Hl Hn; unfold Math.min_step.
  destruct (Math.is_neg_zero number && Math.is_pos_zero lowest) eqn:Ez.
  - apply andb_true_iff in Ez; destruct Ez as [E1 E2].
    apply neg_zero_eq in E1; apply pos_zero_eq in E2; subst.
    vm_compute; auto.
  - destruct (number <? lowest) eqn:E.
    + repeat split; auto using ltb_leb, leb_refl.
    + repeat split; auto using not_ltb_leb, leb_refl.
Qed.

Lemma min_step_not_nan lowest number :
  is_nan lowest = false -> is_nan number = false ->
  is_nan (Math.min_step lowest number) = false.
Proof.
  intros Hl Hn; destruct (min_step_spec lowest number Hl Hn) as [[E | E] _];
    rewrite E; assumption.
Qed.

Lemma min_from_spec coerced : forall lowest,
  is_nan lowest = false -> existsb is_nan coerced = false ->
  (Math.min_from lowest coerced = lowest \/ In (Math.min_from lowest coerced) coerced)
  /\ (Math.min_from lowest coerced <=? lowest) = true
  /\ (forall c, In c coerced -> (Math.min_from lowest coerced <=? c) = true).
Proof.
  induction coerced as [| number rest IH]; intros lowest Hl Hex; simpl in *.
  - repeat split; auto using leb_refl; intros c [].
  - apply orb_false_iff in Hex; destruct Hex as [Hn Hrest]; rewrite Hn.
    destruct (min_step_spec lowest number Hl Hn) as [Hin [Hle1 Hle2]].
    destruct (IH _ (min_step_not_nan _ _ Hl Hn) Hrest) as [Hin' [Hle' Hall]].
    repeat split.
    + destruct Hin' as [E | Hin']; [| now auto].
      rewrite E; destruct Hin as [E' | E']; rewrite E'; auto.
    + eauto using leb_trans.
    + intros c [<- | Hc]; eauto using leb_trans.
Qed.

Lemma min_from_nan coerced : forall lowest,
  existsb is_nan coerced = true -> Math.min_from lowest coerced = nan.
Proof.
  induction coerced as [| number rest IH]; intros lowest Hex; simpl in *.
  - discriminate.
  - destruct (is_nan number); auto.
Qed.

Lemma infinity_leb c : (infinity <=? c) = true -> c = infinity.
Proof.
  intros H; apply not_ltb_infinity.
  - now apply leb_not_nan in H.
  - now apply leb_not_ltb.
Qed.

Lemma min_is_minimum args :
  args <> [] -> existsb is_nan args = false -> is_minimum (Math.min args) args.
Proof.
  intros Hne Hex; unfold Math.min.
  destruct (min_from_spec args infinity eq_refl Hex) as [Hin [_ Hall]].
  split; auto.
  destruct Hin as [E | Hin]; auto.
  destruct args as [| c rest]; [congruence |].
  pose proof (Hall c (or_introl eq_refl)) as Hc.
  rewrite E in Hc |- *; apply infinity_leb in Hc; subst; now left.
Qed.

Lemma min_nan args : is_nan (Math.min args) = existsb is_nan args.
Proof.
  destruct (existsb is_nan args) eqn:Hex.
  - unfold Math.min; now rewrite min_from_nan.
  - destruct (min_from_spec args infinity eq_refl Hex) as [_ [Hle _]].
    now apply leb_not_nan in Hle.
Qed.

Lemma min_step_infinity number :
  is_nan number = false -> Math.min_step infinity number = number.
Proof.
  intros Hn; unfold Math.min_step.
  change (Math.is_pos_zero infinity) with false; rewrite andb_false_r.
  destruct (number <? infinity) eqn:E; auto.
  symmetry; now apply not_ltb_infinity.
Qed.

Lemma safetyClamp_nan v : is_nan v = true -> safetyClamp v = nan.
Proof.
  intros H; unfold safetyClamp.
  replace (Math.min [v; 5.0]) with nan; [reflexivity |].
  symmetry; apply is_nan_true; rewrite min_nan; simpl; now rewrite H.
Qed.

Lemma safetyClamp_spec v : is_nan v = false -> safetyClamp v = clamp 0.01 5.0 v.
Proof.
  intros Hn; unfold safetyClamp, Math.min, Math.max; simpl Math.min_from.
  rewrite Hn, (min_step_infinity v Hn).
  change (is_nan 5.0) with false; cbv iota.
  assert (E : Math.min_step v 5.0 = if 5.0 <? v then 5.0 else v) by reflexivity.
  rewrite E; clear E; simpl Math.max_from.
  change (is_nan 0.01) with false; cbv iota.
  change (Math.max_step neg_infinity 0.01) with 0.01.
  assert (Hr : is_nan (if 5.0 <? v then 5.0 else v) = false)
    by (destruct (5.0 <? v); auto).
  rewrite Hr; unfold Math.max_step, gt, clamp.
  change (Math.is_neg_zero 0.01) with false; rewrite andb_false_r.
  destruct (5.0 <? v) eqn:E5.
  - change (0.01 <? 5.0) with true; cbv iota.
    assert (E : (v <? 0.01) = false).
    { apply leb_not_ltb, ltb_leb.
      apply (leb_ltb_trans _ 5.0); [reflexivity | assumption]. }
    now rewrite E.
  - destruct (0.01 <? v) eqn:E1.
    + now rewrite (ltb_asym _ _ E1).
    + destruct (v <? 0.01) eqn:E2; auto.
      symmetry; apply eqb_eq_nonzero; [reflexivity |].
      now apply not_ltb_eq.
Qed.

Lemma clamp_in_range v : is_nan v = false -> in_range 0.01 5.0 (clamp 0.01 5.0 v).
Proof.
  intros Hn; unfold clamp, in_range.
  destruct (v <? 0.01) eqn:E1; [split; reflexivity |].
  destruct (5.0 <? v) eqn:E5; [split; reflexivity |].
  split; now apply not_ltb_leb.
Qed.

Lemma in_range_not_nan lo hi v : in_range lo hi v -> is_nan v = false.
Proof. intros [H _]; now apply leb_not_nan in H. Qed.

(** The reference [cbrt] is a conforming host. *)

Lemma ldexp_of_uint63_not_nan q e : is_nan (Z.ldexp (of_uint63 q) e) = false.
Proof.
  rewrite is_nan_spec, Z_ldexp_spec, of_uint63_spec.
  pose proof (binary_normalize_not_nan prec emax (Uint63.to_Z q) 0 false) as H.
  destruct (binary_normalize prec emax (Uint63.to_Z q) 0 false) as [? | ? | | s m ex];
    try reflexivity; try congruence.
  unfold SFldexp.
  pose proof (binary_round_not_nan prec emax s m (ex + e)) as H'.
  destruct (binary_round prec emax s m (ex + e)); simpl; congruence.
Qed.

Lemma opp_not_nan a : is_nan a = false -> is_nan (- a) = false.
Proof.
  rewrite !is_nan_spec, opp_spec; destruct (Prim2SF a); simpl; congruence.
Qed.

Lemma cbrt_ref_conforms : Math.cbrt_conforms Math.cbrt_ref.
Proof.
  split; intros n; unfold Math.cbrt_ref.
  - rewrite is_finite_spec, is_zero_spec.
    destruct (Prim2SF n); simpl; intros [H | H]; try discriminate; reflexivity.
  - intros Hf; pose proof (is_finite_not_nan n Hf) as Hn.
    destruct (Prim2SF n) as [? | ? | | s m e]; auto.
    destruct s; auto using opp_not_nan, ldexp_of_uint63_not_nan.
Qed.

End MathFacts.

(** ** Facts about the engine *)

Section EngineFacts.
Import F64 MathFacts.

Variable cbrt : float -> float.
Hypothesis cbrt_ok : Math.cbrt_conforms cbrt.

Lemma cbrt_nan n : is_nan (cbrt n) = is_nan n.
Proof.
  destruct (is_finite n) eqn:Hf.
  - rewrite (Math.cbrt_number cbrt cbrt_ok n Hf); symmetry.
    now apply is_finite_not_nan.
  - now rewrite (Math.cbrt_special cbrt cbrt_ok n (or_introl Hf)).
Qed.

Lemma div_real_nan a b :
  is_finite a = true -> is_zero a = false -> is_nan (a / b) = is_nan b.
Proof.
  intros Hf Hz; rewrite div_nan, Hf, Hz, (is_finite_not_nan a Hf); simpl.
  now rewrite !orb_false_r.
Qed.

Lemma scaleByHeight_nan effectiveH :
  is_nan (scaleByHeight globals effectiveH) = is_nan effectiveH.
Proof. now apply div_real_nan. Qed.

Lemma scaleByWidth_nan effectiveW :
  is_nan (scaleByWidth globals effectiveW) = is_nan effectiveW.
Proof. now apply div_real_nan. Qed.

Lemma scaleByVolume_nan effectiveW effectiveH effectiveD :
  is_nan (scaleByVolume cbrt globals effectiveW effectiveH effectiveD)
  = is_nan (currentVolume effectiveW effectiveH effectiveD).
Proof. unfold scaleByVolume; rewrite cbrt_nan; now apply div_real_nan. Qed.

Lemma currentVolume_operands effectiveW effectiveH effectiveD :
  is_nan (currentVolume effectiveW effectiveH effectiveD) = false ->
  is_nan effectiveW = false /\ is_nan effectiveH = false /\ is_nan effectiveD = false.
Proof.
  unfold currentVolume; rewrite !mul_nan, !orb_false_iff; tauto.
Qed.

Lemma candidates_nan effectiveW effectiveH effectiveD :
  existsb is_nan
    [scaleByHeight globals effectiveH; scaleByWidth globals effectiveW;
     scaleByVolume cbrt globals effectiveW effectiveH effectiveD]
  = is_nan (currentVolume effectiveW effectiveH effectiveD).
Proof.
  simpl; rewrite scaleByHeight_nan, scaleByWidth_nan, scaleByVolume_nan, orb_false_r.
  destruct (is_nan (currentVolume effectiveW effectiveH effectiveD)) eqn:E.
  - now rewrite !orb_true_r.
  - destruct (currentVolume_operands _ _ _ E) as [-> [-> _]]; reflexivity.
Qed.

Lemma finalScale_nan effectiveW effectiveH effectiveD :
  is_nan (finalScale cbrt globals effectiveW effectiveH effectiveD)
  = is_nan (currentVolume effectiveW effectiveH effectiveD).
Proof.
  unfold finalScale; rewrite <- candidates_nan, <- min_nan.
  destruct (is_nan (Math.min _)) eqn:E.
  - now rewrite (safetyClamp_nan _ E).
  - rewrite (safetyClamp_spec _ E).
    exact (in_range_not_nan _ _ _ (clamp_in_range _ E)).
Qed.

Lemma finalScale_clamped effectiveW effectiveH effectiveD :
  is_nan (currentVolume effectiveW effectiveH effectiveD) = false ->
  exists m,
    is_minimum m
      [scaleByHeight globals effectiveH; scaleByWidth globals effectiveW;
       scaleByVolume cbrt globals effectiveW effectiveH effectiveD]
    /\ finalScale cbrt globals effectiveW effectiveH effectiveD = clamp 0.01 5.0 m
    /\ in_range 0.01 5.0 (finalScale cbrt globals effectiveW effectiveH effectiveD).
Proof.
  intros Hv; rewrite <- candidates_nan in Hv.
  pose proof Hv as Hm; rewrite <- min_nan in Hm.
  eexists; split; [apply min_is_minimum; [discriminate | exact Hv] |].
  unfold finalScale; rewrite (safetyClamp_spec _ Hm).
  split; [reflexivity | now apply clamp_in_range].
Qed.

Lemma real_volume_not_nan effectiveW effectiveH effectiveD :
  is_real effectiveW -> is_real effectiveH -> is_real effectiveD ->
  is_zero effectiveD = false ->
  is_nan (currentVolume effectiveW effectiveH effectiveD) = false.
Proof.
  unfold is_real, currentVolume; intros Hw Hh Hd Hz.
  rewrite !mul_nan, Hw, Hh, Hd, Hz.
  rewrite (is_finite_not_nan _ Hw), (is_finite_not_nan _ Hh), (is_finite_not_nan _ Hd).
  simpl; now rewrite !andb_false_r.
Qed.

End EngineFacts.

(** ** The orientation detector *)

Import F64 MathFacts.

Lemma rawZ_excludes_rawX w h d :
  rawZ_isTallest w h d = true -> rawX_isTallest w h d = false.
Proof.
  unfold rawZ_isTallest, rawX_isTallest, gt; intros H.
  apply andb_true_iff in H; destruct H as [_ H].
  now rewrite (ltb_asym _ _ H), andb_false_r.
Qed.

Lemma autoOrient_back w h d :
  rawZ_isTallest w h d = true ->
  rotation (autoOrient w h d) = (-90, 0, 0)
  /\ effective (autoOrient w h d) = (w, d, h).
Proof. unfold autoOrient; intros ->; split; reflexivity. Qed.

Lemma autoOrient_side w h d :
  rawZ_isTallest w h d = false -> rawX_isTallest w h d = true ->
  rotation (autoOrient w h d) = (0, 0, 90)
  /\ effective (autoOrient w h d) = (h, w, d).
Proof. unfold autoOrient; intros -> ->; split; reflexivity. Qed.

Lemma autoOrient_upright w h d :
  rawZ_isTallest w h d = false -> rawX_isTallest w h d = false ->
  rotation (autoOrient w h d) = (0, 0, 0)
  /\ effective (autoOrient w h d) = (w, h, d).
Proof. unfold autoOrient; intros -> ->; split; reflexivity. Qed.

(** C2: when depth is strictly greater than both height and width the
    detector answers the rotation (-90, 0, 0) and the effective
    dimensions (width, depth, height); when width is strictly greater
    than both height and depth it answers (0, 0, 90) and (height, width,
    depth); and exactly one of the three branches is taken. *)
Theorem C2_orientation_detector (rawW rawH rawD : float) :
  (gt rawD rawH = true -> gt rawD rawW = true ->
   rotation (autoOrient rawW rawH rawD) = (-90, 0, 0)
   /\ effective (autoOrient rawW rawH rawD) = (rawW, rawD, rawH))
  /\ (gt rawW rawH = true -> gt rawW rawD = true ->
      rotation (autoOrient rawW rawH rawD) = (0, 0, 90)
      /\ effective (autoOrient rawW rawH rawD) = (rawH, rawW, rawD))
  /\ ((rawZ_isTallest rawW rawH rawD = true
       /\ rawX_isTallest rawW rawH rawD = false
       /\ rotation (autoOrient rawW rawH rawD) = (-90, 0, 0))
      \/ (rawZ_isTallest rawW rawH rawD = false
          /\ rawX_isTallest rawW rawH rawD = true
          /\ rotation (autoOrient rawW rawH rawD) = (0, 0, 90))
      \/ (rawZ_isTallest rawW rawH rawD = false
          /\ rawX_isTallest rawW rawH rawD = false
          /\ rotation (autoOrient rawW rawH rawD) = (0, 0, 0))).
Proof.
  split; [| split].
  - intros Hh Hw; apply autoOrient_back.
    unfold rawZ_isTallest; now rewrite Hh, Hw.
  - intros Hh Hd.
    assert (Hx : rawX_isTallest rawW rawH rawD = true)
      by (unfold rawX_isTallest; now rewrite Hh, Hd).
    apply autoOrient_side; auto.
    destruct (rawZ_isTallest rawW rawH rawD) eqn:Hz; auto.
    apply rawZ_excludes_rawX in Hz; congruence.
  - destruct (rawZ_isTallest rawW rawH rawD) eqn:Hz.
    + left; repeat split.
      * now apply rawZ_excludes_rawX.
      * now apply autoOrient_back.
    + destruct (rawX_isTallest rawW rawH rawD) eqn:Hx.
      * right; left; repeat split; now apply autoOrient_side.
      * right; right; repeat split; now apply autoOrient_upright.
Qed.

Lemma C2_orientation_detector_witness :
  (rotation (autoOrient 0.04 0.02 0.10) = (-90, 0, 0)
   /\ effective (autoOrient 0.04 0.02 0.10) = (0.04, 0.10, 0.02))
  /\ (rotation (autoOrient 0.12 0.03 0.05) = (0, 0, 90)
      /\ effective (autoOrient 0.12 0.03 0.05) = (0.03, 0.12, 0.05)).
Proof.
  split.
  - apply (proj1 (C2_orientation_detector 0.04 0.02 0.10)); reflexivity.
  - apply (proj1 (proj2 (C2_orientation_detector 0.12 0.03 0.05))); reflexivity.
Defined.

Lemma tie_no_rotation_tests w h d :
  tie_for_tallest w h d = true ->
  rawZ_isTallest w h d = false /\ rawX_isTallest w h d = false.
Proof.
  unfold tie_for_tallest, rawZ_isTallest, rawX_isTallest, gt; intros H.
  repeat (apply orb_true_iff in H; destruct H as [H | H]);
    apply andb_true_iff in H; destruct H as [He Hl].
  - rewrite (leb_not_ltb _ _ Hl), (leb_not_ltb _ _ (eqb_leb _ _ He)); auto.
  - rewrite (leb_not_ltb _ _ (eqb_leb _ _ He)).
    rewrite eqb_sym in He.
    rewrite (leb_not_ltb _ _ (eqb_leb _ _ He)), !andb_false_r; auto.
  - rewrite (leb_not_ltb _ _ Hl).
    rewrite eqb_sym in He.
    rewrite (leb_not_ltb _ _ (eqb_leb _ _ He)), andb_false_r; auto.
Qed.

(** C3: when no single axis is strictly greater than both others, and in
    particular when two axes tie for tallest, the detector answers the
    zero rotation and the raw dimensions; the depth test comes first:
    once it succeeds the back correction is chosen and the width test
    cannot succeed. *)
Theorem C3_ties_keep_orientation (rawW rawH rawD : float) :
  (no_tallest_axis rawW rawH rawD = true ->
   rotation (autoOrient rawW rawH rawD) = (0, 0, 0)
   /\ effective (autoOrient rawW rawH rawD) = (rawW, rawH, rawD))
  /\ (tie_for_tallest rawW rawH rawD = true ->
      rotation (autoOrient rawW rawH rawD) = (0, 0, 0)
      /\ effective (autoOrient rawW rawH rawD) = (rawW, rawH, rawD))
  /\ (rawZ_isTallest rawW rawH rawD = true ->
      rotation (autoOrient rawW rawH rawD) = (-90, 0, 0)
      /\ rawX_isTallest rawW rawH rawD = false).
Proof.
  split; [| split].
  - unfold no_tallest_axis; intros H.
    apply andb_true_iff in H; destruct H as [H _].
    apply andb_true_iff in H; destruct H as [Hz Hx].
    apply negb_true_iff in Hz, Hx; now apply autoOrient_upright.
  - intros H; apply tie_no_rotation_tests in H; destruct H.
    now apply autoOrient_upright.
  - intros Hz; split.
    + now apply autoOrient_back.
    + now apply rawZ_excludes_rawX.
Qed.

Lemma C3_ties_keep_orientation_witness :
  (rotation (autoOrient 0.05 0.05 0.05) = (0, 0, 0)
   /\ effective (autoOrient 0.05 0.05 0.05) = (0.05, 0.05, 0.05))
  /\ (rotation (autoOrient 0.10 0.02 0.10) = (0, 0, 0)
      /\ effective (autoOrient 0.10 0.02 0.10) = (0.10, 0.02, 0.10))
  /\ (rotation (autoOrient 0.04 0.02 0.10) = (-90, 0, 0)
      /\ rawX_isTallest 0.04 0.02 0.10 = false).
Proof.
  split; [| split].
  - apply (proj1 (C3_ties_keep_orientation 0.05 0.05 0.05)); reflexivity.
  - apply (proj1 (proj2 (C3_ties_keep_orientation 0.10 0.02 0.10))); reflexivity.
  - apply (proj2 (proj2 (C3_ties_keep_orientation 0.04 0.02 0.10))); reflexivity.
Defined.


Lemma C10_counterexample :
  rawZ_isTallest 0.1 0.2 0.3 = true
  /\ effective (autoOrient 0.1 0.2 0.3) = (0.1, 0.3, 0.2)
  /\ (currentVolume 0.1 0.3 0.2 =? 0.1 * 0.2 * 0.3) = false.
Proof. repeat split. Qed.

(** C10, amended: in every branch the effective dimensions are a
    permutation of the raw ones.  The volume given to the volume
    candidate is the binary64 product of the raw dimensions taken in the
    effective order: it is [rawW * rawH * rawD] itself when the depth
    branch is not taken, and [rawW * rawD * rawH] when it is, which
    rounding may separate from [rawW * rawH * rawD]. *)
Theorem C10_effective_is_permutation (rawW rawH rawD : float) :
  Permutation
    [effectiveW (autoOrient rawW rawH rawD); effectiveH (autoOrient rawW rawH rawD);
     effectiveD (autoOrient rawW rawH rawD)]
    [rawW; rawH; rawD]
  /\ (rawZ_isTallest rawW rawH rawD = false ->
      currentVolume (effectiveW (autoOrient rawW rawH rawD))
        (effectiveH (autoOrient rawW rawH rawD))
        (effectiveD (autoOrient rawW rawH rawD))
      = rawW * rawH * rawD)
  /\ (rawZ_isTallest rawW rawH rawD = true ->
      currentVolume (effectiveW (autoOrient rawW rawH rawD))
        (effectiveH (autoOrient rawW rawH rawD))
        (effectiveD (autoOrient rawW rawH rawD))
      = rawW * rawD * rawH).
Proof.
  unfold autoOrient, currentVolume.
  destruct (rawZ_isTallest rawW rawH rawD); [| destruct (rawX_isTallest rawW rawH rawD)];
    simpl; (split; [| split]); try discriminate; try reflexivity.
  - apply perm_skip, perm_swap.
  - apply perm_swap.
  - intros _; now rewrite (mul_comm rawH rawW).
Qed.

Lemma C10_effective_is_permutation_witness :
  currentVolume (effectiveW (autoOrient 0.12 0.03 0.05))
    (effectiveH (autoOrient 0.12 0.03 0.05))
    (effectiveD (autoOrient 0.12 0.03 0.05))
  = 0.12 * 0.03 * 0.05
  /\ currentVolume (effectiveW (autoOrient 0.1 0.2 0.3))
       (effectiveH (autoOrient 0.1 0.2 0.3))
       (effectiveD (autoOrient 0.1 0.2 0.3))
     = 0.1 * 0.3 * 0.2.
Proof.
  split.
  - apply (proj1 (proj2 (C10_effective_is_permutation 0.12 0.03 0.05))); reflexivity.
  - apply (proj2 (proj2 (C10_effective_is_permutation 0.1 0.2 0.3))); reflexivity.
Defined.

(** ** The scale calculator *)

(** C4: for real, non-zero effective dimensions the final scale is the
    minimum of the three candidates [targetHeight / effectiveHeight],
    [targetWidth / effectiveWidth] and
    [cbrt (targetVolume / (effectiveWidth * effectiveHeight * effectiveDepth))],
    clamped to [0.01, 5.0]. *)
Theorem C4_final_scale_is_clamped_minimum
    (cbrt : float -> float) (cbrt_ok : Math.cbrt_conforms cbrt)
    (effectiveW effectiveH effectiveD : float) :
  is_real effectiveW -> is_real effectiveH -> is_real effectiveD ->
  is_zero effectiveW = false -> is_zero effectiveH = false ->
  is_zero effectiveD = false ->
  exists m,
    is_minimum m
      [TARGET_HEIGHT globals / effectiveH;
       TARGET_WIDTH globals / effectiveW;
       cbrt (TARGET_VOLUME globals / (effectiveW * effectiveH * effectiveD))]
    /\ finalScale cbrt globals effectiveW effectiveH effectiveD = clamp 0.01 5.0 m.
Proof.
  intros Hw Hh Hd _ _ Hz.
  destruct (finalScale_clamped cbrt cbrt_ok effectiveW effectiveH effectiveD
              (real_volume_not_nan _ _ _ Hw Hh Hd Hz)) as [m [Hm [Hf _]]].
  exists m; split; assumption.
Qed.

Lemma C4_final_scale_is_clamped_minimum_witness :
  exists m,
    is_minimum m
      [TARGET_HEIGHT globals / 0.20; TARGET_WIDTH globals / 0.05;
       Math.cbrt_ref (TARGET_VOLUME globals / (0.05 * 0.20 * 0.05))]
    /\ finalScale Math.cbrt_ref globals 0.05 0.20 0.05 = clamp 0.01 5.0 m.
Proof.
  apply (C4_final_scale_is_clamped_minimum Math.cbrt_ref cbrt_ref_conforms
           0.05 0.20 0.05); reflexivity.
Defined.

(** What a run on a measurable box tells the renderer. *)

Lemma normalizeModel_measurable cbrt g d :
  measurable d ->
  attribute "orientation" (normalizeModel cbrt g (js_object d))
  = Some (Orientation
            (orientX (autoOrient (Dimensions.x d) (Dimensions.y d) (Dimensions.z d)))
            (orientY (autoOrient (Dimensions.x d) (Dimensions.y d) (Dimensions.z d)))
            (orientZ (autoOrient (Dimensions.x d) (Dimensions.y d) (Dimensions.z d))))
  /\ attribute "scale" (normalizeModel cbrt g (js_object d))
     = Some (UniformScale
               (finalScale cbrt g
                  (effectiveW (autoOrient (Dimensions.x d) (Dimensions.y d) (Dimensions.z d)))
                  (effectiveH (autoOrient (Dimensions.x d) (Dimensions.y d) (Dimensions.z d)))
                  (effectiveD (autoOrient (Dimensions.x d) (Dimensions.y d) (Dimensions.z d))))).
Proof.
  unfold measurable, normalizeModel; intros ->; split; reflexivity.
Qed.

Lemma effective_zero w h d :
  is_zero w || is_zero h || is_zero d = true ->
  is_zero (effectiveW (autoOrient w h d)) || is_zero (effectiveH (autoOrient w h d))
    || is_zero (effectiveD (autoOrient w h d)) = true.
Proof.
  unfold autoOrient.
  destruct (rawZ_isTallest w h d); [| destruct (rawX_isTallest w h d)]; simpl;
    destruct (is_zero w), (is_zero h), (is_zero d); auto.
Qed.

Lemma zero_volume effectiveW effectiveH effectiveD :
  is_nan (currentVolume effectiveW effectiveH effectiveD) = false ->
  is_zero effectiveW || is_zero effectiveH || is_zero effectiveD = true ->
  is_zero (currentVolume effectiveW effectiveH effectiveD) = true.
Proof.
  unfold currentVolume; intros Hn Hz.
  apply mul_zero; [assumption |].
  destruct (is_zero effectiveD); [now rewrite orb_true_r |].
  rewrite orb_false_r in Hz |- *.
  apply mul_zero; [| assumption].
  rewrite mul_nan in Hn; repeat (apply orb_false_iff in Hn; destruct Hn as [Hn _]).
  assumption.
Qed.

Lemma C5_counterexample :
  attribute "scale"
    (normalizeModel Math.cbrt_ref globals (js_object (Dimensions.make 0 1 1)))
  = Some (UniformScale 0.08)
  /\ scaleByWidth globals 0 = infinity
  /\ finalScale_floored Math.cbrt_ref globals 0 1 1 = 0.01
  /\ (finalScale Math.cbrt_ref globals 0 1 1
      =? finalScale_floored Math.cbrt_ref globals 0 1 1) = false.
Proof. repeat split. Qed.

(** C5, amended: when one or two raw dimensions are zero (not all
    three) and the volume product is a number, no candidate is floored
    before the minimum is taken.  The volume candidate is infinite (of
    either sign), and so is the height or width candidate of a zero
    effective height or width; the minimum is taken over the three
    candidates as computed, and the clamp is applied once, to that
    minimum. *)
Theorem C5_clamp_follows_the_minimum
    (cbrt : float -> float) (cbrt_ok : Math.cbrt_conforms cbrt)
    (d : Dimensions.t) :
  let u := autoOrient (Dimensions.x d) (Dimensions.y d) (Dimensions.z d) in
  is_zero (Dimensions.x d) || is_zero (Dimensions.y d) || is_zero (Dimensions.z d)
  = true ->
  measurable d ->
  is_nan (currentVolume (effectiveW u) (effectiveH u) (effectiveD u)) = false ->
  is_infinity (scaleByVolume cbrt globals (effectiveW u) (effectiveH u) (effectiveD u))
  = true
  /\ (is_zero (effectiveH u) = true ->
      is_infinity (scaleByHeight globals (effectiveH u)) = true)
  /\ (is_zero (effectiveW u) = true ->
      is_infinity (scaleByWidth globals (effectiveW u)) = true)
  /\ exists m,
       is_minimum m
         [scaleByHeight globals (effectiveH u); scaleByWidth globals (effectiveW u);
          scaleByVolume cbrt globals (effectiveW u) (effectiveH u) (effectiveD u)]
       /\ attribute "scale" (normalizeModel cbrt globals (js_object d))
          = Some (UniformScale (clamp 0.01 5.0 m)).
Proof.
  intros u Hz Hm Hn; split; [| split; [| split]].
  - pose proof (zero_volume _ _ _ Hn (effective_zero _ _ _ Hz)) as Hv.
    assert (Hi : is_infinity
                   (TARGET_VOLUME globals
                    / currentVolume (effectiveW u) (effectiveH u) (effectiveD u))
                 = true)
      by (apply div_by_zero; auto).
    unfold scaleByVolume.
    now rewrite (Math.cbrt_special cbrt cbrt_ok _
                   (or_introl (is_infinity_not_finite _ Hi))).
  - intros H; now apply div_by_zero.
  - intros H; now apply div_by_zero.
  - destruct (finalScale_clamped cbrt cbrt_ok _ _ _ Hn) as [m [Hmin [Hf _]]].
    exists m; split; [assumption |].
    rewrite (proj2 (normalizeModel_measurable cbrt globals d Hm)).
    fold u; now rewrite Hf.
Qed.

Lemma C5_clamp_follows_the_minimum_witness :
  is_infinity (scaleByVolume Math.cbrt_ref globals 0 1 1) = true
  /\ is_infinity (scaleByWidth globals 0) = true
  /\ exists m,
       is_minimum m
         [scaleByHeight globals 1; scaleByWidth globals 0;
          scaleByVolume Math.cbrt_ref globals 0 1 1]
       /\ attribute "scale"
            (normalizeModel Math.cbrt_ref globals (js_object (Dimensions.make 0 1 1)))
          = Some (UniformScale (clamp 0.01 5.0 m)).
Proof.
  destruct (C5_clamp_follows_the_minimum Math.cbrt_ref cbrt_ref_conforms
              (Dimensions.make 0 1 1) eq_refl eq_refl eq_refl)
    as [Hv [_ [Hw Hm]]].
  split; [exact Hv | split; [exact (Hw eq_refl) | exact Hm]].
Defined.

(** The safety clamp lets exactly one value through unclamped: NaN.
    The applied scale is in [0.01, 5.0] as soon as the volume product is
    a number. *)

Theorem applied_scale_in_range
    (cbrt : float -> float) (cbrt_ok : Math.cbrt_conforms cbrt)
    (d : Dimensions.t) :
  let u := autoOrient (Dimensions.x d) (Dimensions.y d) (Dimensions.z d) in
  measurable d ->
  is_nan (currentVolume (effectiveW u) (effectiveH u) (effectiveD u)) = false ->
  exists s,
    attribute "scale" (normalizeModel cbrt globals (js_object d))
    = Some (UniformScale s)
    /\ in_range 0.01 5.0 s.
Proof.
  intros u Hm Hn.
  destruct (finalScale_clamped cbrt cbrt_ok _ _ _ Hn) as [m [_ [_ Hr]]].
  eexists; split; [exact (proj2 (normalizeModel_measurable cbrt globals d Hm)) |].
  exact Hr.
Qed.

Lemma applied_scale_in_range_witness :
  exists s,
    attribute "scale"
      (normalizeModel Math.cbrt_ref globals (js_object (Dimensions.make 0 1 1)))
    = Some (UniformScale s)
    /\ in_range 0.01 5.0 s.
Proof.
  apply (applied_scale_in_range Math.cbrt_ref cbrt_ref_conforms
           (Dimensions.make 0 1 1)); reflexivity.
Defined.

Lemma effective_real w h d :
  is_real w -> is_real h -> is_real d ->
  is_real (effectiveW (autoOrient w h d)) /\ is_real (effectiveH (autoOrient w h d))
  /\ is_real (effectiveD (autoOrient w h d)).
Proof.
  unfold autoOrient.
  destruct (rawZ_isTallest w h d); [| destruct (rawX_isTallest w h d)]; simpl; auto.
Qed.

Lemma real_volume_nan effectiveW effectiveH effectiveD :
  is_real effectiveW -> is_real effectiveH -> is_real effectiveD ->
  is_nan (currentVolume effectiveW effectiveH effectiveD)
  = is_infinity (effectiveW * effectiveH) && is_zero effectiveD.
Proof.
  unfold is_real, currentVolume; intros Hw Hh Hd.
  assert (Hp : is_nan (effectiveW * effectiveH) = false).
  { rewrite mul_nan, Hw, Hh, (is_finite_not_nan _ Hw), (is_finite_not_nan _ Hh).
    simpl; now rewrite andb_false_r. }
  rewrite mul_nan, Hp, Hd, (is_finite_not_nan _ Hd); simpl.
  unfold is_finite; rewrite Hp, andb_false_r, orb_false_r; simpl.
  now rewrite negb_involutive.
Qed.

(** For a box of real numbers the only way to a NaN scale is an
    overflowing product of effective width and height met by a zero
    effective depth. *)

Theorem applied_scale_of_real_box
    (cbrt : float -> float) (cbrt_ok : Math.cbrt_conforms cbrt)
    (d : Dimensions.t) :
  let u := autoOrient (Dimensions.x d) (Dimensions.y d) (Dimensions.z d) in
  is_real (Dimensions.x d) -> is_real (Dimensions.y d) -> is_real (Dimensions.z d) ->
  measurable d ->
  exists s,
    attribute "scale" (normalizeModel cbrt globals (js_object d))
    = Some (UniformScale s)
    /\ is_nan s = is_infinity (effectiveW u * effectiveH u) && is_zero (effectiveD u)
    /\ (is_nan s = false -> in_range 0.01 5.0 s).
Proof.
  intros u Hx Hy Hz Hm.
  destruct (effective_real _ _ _ Hx Hy Hz) as [Hw [Hh Hd]].
  eexists; split; [exact (proj2 (normalizeModel_measurable cbrt globals d Hm)) |].
  fold u; rewrite (finalScale_nan cbrt cbrt_ok); split.
  - now apply real_volume_nan.
  - intros Hn; now destruct (finalScale_clamped cbrt cbrt_ok _ _ _ Hn) as [m [_ [_ Hr]]].
Qed.

Lemma applied_scale_of_real_box_witness :
  exists s,
    attribute "scale"
      (normalizeModel Math.cbrt_ref globals (js_object (Dimensions.make 1e-6 1e-6 1e-6)))
    = Some (UniformScale s)
    /\ is_nan s = is_infinity (1e-6 * 1e-6) && is_zero 1e-6
    /\ (is_nan s = false -> in_range 0.01 5.0 s).
Proof.
  apply (applied_scale_of_real_box Math.cbrt_ref cbrt_ref_conforms
           (Dimensions.make 1e-6 1e-6 1e-6)); reflexivity.
Defined.

(** C1, at a box the claim covers: width and height 1e200, depth 0, all
    non-negative and not all zero.  The product of width and height
    overflows to [infinity], its product with the zero depth is [nan],
    and [nan] goes through [Math.min], through the safety clamp, and to
    the renderer: the applied scale is not in [0.01, 5.0]. *)
Theorem C1_nan_scale_reaches_renderer
    (cbrt : float -> float) (cbrt_ok : Math.cbrt_conforms cbrt) :
  (0 <=? 1e200) = true /\ (0 <=? 0) = true
  /\ measurable (Dimensions.make 1e200 1e200 0)
  /\ currentVolume 1e200 1e200 0 = nan
  /\ attribute "scale"
       (normalizeModel cbrt globals (js_object (Dimensions.make 1e200 1e200 0)))
     = Some (UniformScale nan)
  /\ (0.01 <=? nan) = false /\ (nan <=? 5.0) = false.
Proof.
  repeat split.
  rewrite (proj2 (normalizeModel_measurable cbrt globals
                    (Dimensions.make 1e200 1e200 0) eq_refl)).
  do 2 f_equal; apply is_nan_true.
  now rewrite (finalScale_nan cbrt cbrt_ok).
Qed.

Lemma C1_nan_scale_reaches_renderer_witness :
  attribute "scale"
    (normalizeModel Math.cbrt_ref globals (js_object (Dimensions.make 1e200 1e200 0)))
  = Some (UniformScale nan).
Proof.
  exact (proj1 (proj2 (proj2 (proj2 (proj2
    (C1_nan_scale_reaches_renderer Math.cbrt_ref cbrt_ref_conforms)))))).
Defined.

(** ** The pipeline driver *)

(** C6: on the box (0, 0, 0) the run is a single console warning: no
    orientation and no scale is written, the asset keeps its native
    attributes, and the function returns normally. *)
Theorem C6_unmeasurable_box_is_skipped (cbrt : float -> float) (g : Globals) :
  normalizeModel cbrt g (js_object (Dimensions.make 0 0 0))
  = [console_warn skip_warning]
  /\ existsb is_setAttribute
       (normalizeModel cbrt g (js_object (Dimensions.make 0 0 0))) = false
  /\ attribute "orientation"
       (normalizeModel cbrt g (js_object (Dimensions.make 0 0 0))) = None
  /\ attribute "scale"
       (normalizeModel cbrt g (js_object (Dimensions.make 0 0 0))) = None.
Proof. repeat split. Qed.


(** C9: when [getDimensions()] answers [null] or [undefined] the run is
    the same single warning as on the all-zero box: it returns before
    any orientation or scale is applied. *)
Theorem C9_absent_dimensions_are_skipped (cbrt : float -> float) (g : Globals) :
  normalizeModel cbrt g js_null
  = normalizeModel cbrt g (js_object (Dimensions.make 0 0 0))
  /\ normalizeModel cbrt g js_undefined
     = normalizeModel cbrt g (js_object (Dimensions.make 0 0 0))
  /\ normalizeModel cbrt g js_null = [console_warn skip_warning]
  /\ normalizeModel cbrt g js_undefined = [console_warn skip_warning]
  /\ existsb is_setAttribute (normalizeModel cbrt g js_null) = false
  /\ existsb is_setAttribute (normalizeModel cbrt g js_undefined) = false.
Proof. repeat split. Qed.

(** ** The configuration *)

Lemma C8_counterexample :
  (TARGET_VOLUME globals =? 0.000512) = false
  /\ (0.000512 <? TARGET_VOLUME globals) = true.
Proof. repeat split. Qed.

(** C8, amended: the target volume is the binary64 product
    [height * width * height], the height taken twice: with height 2
    and width 3 it is 12, neither the cube 8 nor 18.  With the declared
    targets of 0.08 it is 0.0005120000000000001, the binary64 value next
    above 0.000512: equal to 0.000512 up to one rounding step, not
    exactly. *)
Theorem C8_target_volume_uses_height_twice :
  (forall height width,
     TARGET_VOLUME (declare_targets height width) = height * width * height)
  /\ TARGET_VOLUME globals
     = TARGET_HEIGHT globals * TARGET_WIDTH globals * TARGET_HEIGHT globals
  /\ TARGET_HEIGHT globals = 0.08 /\ TARGET_WIDTH globals = 0.08
  /\ TARGET_VOLUME (declare_targets 2 3) = 12
  /\ TARGET_VOLUME globals = 0.0005120000000000001
  /\ TARGET_VOLUME globals = next_up 0.000512.
Proof. repeat split. Qed.

(** ** End-to-end runs

    The worked examples of the specification, on the reference host.
    The scales are the binary64 quotients the engine computes: 0.08/0.20
    is 0.39999999999999997, not 0.4. *)

Example already_tall :
  run 0.05 0.20 0.05
  = (Some (Orientation 0 0 0), Some (UniformScale (0.08 / 0.20))).
Proof. reflexivity. Qed.

Example depth_tallest :
  run 0.04 0.02 0.10
  = (Some (Orientation (-90) 0 0), Some (UniformScale (0.08 / 0.10))).
Proof. reflexivity. Qed.

Example width_tallest :
  run 0.12 0.03 0.05
  = (Some (Orientation 0 0 90), Some (UniformScale (0.08 / 0.12))).
Proof. reflexivity. Qed.

Example unmeasurable : run 0 0 0 = (None, None).
Proof. reflexivity. Qed.

Example tiny_box :
  run 1e-6 1e-6 1e-6 = (Some (Orientation 0 0 0), Some (UniformScale 5.0)).
Proof. reflexivity. Qed.

Example huge_box :
  run 1e6 1e6 1e6 = (Some (Orientation 0 0 0), Some (UniformScale 0.01)).
Proof. reflexivity. Qed.

(** ** More on the orientation detector and the scale calculator *)

Lemma effective_not_rawZ w h d :
  rawZ_isTallest (effectiveW (autoOrient w h d)) (effectiveH (autoOrient w h d))
    (effectiveD (autoOrient w h d))
  = false.
Proof.
  unfold autoOrient.
  destruct (rawZ_isTallest w h d) eqn:Hz; [| destruct (rawX_isTallest w h d) eqn:Hx];
    simpl; auto.
  - unfold rawZ_isTallest, gt in *.
    apply andb_true_iff in Hz; destruct Hz as [Hh _].
    now rewrite (ltb_asym _ _ Hh).
  - unfold rawZ_isTallest, rawX_isTallest, gt in *.
    apply andb_true_iff in Hx; destruct Hx as [_ Hd].
    now rewrite (ltb_asym _ _ Hd).
Qed.

Lemma effective_not_rawX w h d :
  rawX_isTallest (effectiveW (autoOrient w h d)) (effectiveH (autoOrient w h d))
    (effectiveD (autoOrient w h d))
  = false.
Proof.
  unfold autoOrient.
  destruct (rawZ_isTallest w h d) eqn:Hz; [| destruct (rawX_isTallest w h d) eqn:Hx];
    simpl; auto.
  - unfold rawZ_isTallest, rawX_isTallest, gt in *.
    apply andb_true_iff in Hz; destruct Hz as [_ Hw].
    now rewrite (ltb_asym _ _ Hw).
  - unfold rawX_isTallest, gt in *.
    apply andb_true_iff in Hx; destruct Hx as [Hh _].
    now rewrite (ltb_asym _ _ Hh).
Qed.

(** Once corrected, a box is settled: the detector run on the effective
    dimensions asks for no rotation and leaves them as they are. *)
Theorem autoOrient_settles (rawW rawH rawD : float) :
  rotation
    (autoOrient (effectiveW (autoOrient rawW rawH rawD))
       (effectiveH (autoOrient rawW rawH rawD))
       (effectiveD (autoOrient rawW rawH rawD)))
  = (0, 0, 0)
  /\ effective
       (autoOrient (effectiveW (autoOrient rawW rawH rawD))
          (effectiveH (autoOrient rawW rawH rawD))
          (effectiveD (autoOrient rawW rawH rawD)))
     = effective (autoOrient rawW rawH rawD).
Proof.
  apply autoOrient_upright; [apply effective_not_rawZ | apply effective_not_rawX].
Qed.

(** Whenever a rotation is chosen, the effective height is strictly
    greater than the effective width and the effective depth. *)
Theorem rotated_height_is_tallest (rawW rawH rawD : float) :
  rawZ_isTallest rawW rawH rawD || rawX_isTallest rawW rawH rawD = true ->
  gt (effectiveH (autoOrient rawW rawH rawD)) (effectiveW (autoOrient rawW rawH rawD))
  && gt (effectiveH (autoOrient rawW rawH rawD)) (effectiveD (autoOrient rawW rawH rawD))
  = true.
Proof.
  unfold autoOrient.
  destruct (rawZ_isTallest rawW rawH rawD) eqn:Hz;
    [| destruct (rawX_isTallest rawW rawH rawD) eqn:Hx]; simpl; try discriminate;
    intros _.
  - unfold rawZ_isTallest in Hz; now rewrite andb_comm.
  - exact Hx.
Qed.

Lemma rotated_height_is_tallest_witness :
  gt (effectiveH (autoOrient 0.12 0.03 0.05)) (effectiveW (autoOrient 0.12 0.03 0.05))
  && gt (effectiveH (autoOrient 0.12 0.03 0.05)) (effectiveD (autoOrient 0.12 0.03 0.05))
  = true.
Proof. apply (rotated_height_is_tallest 0.12 0.03 0.05); reflexivity. Defined.

Lemma effective_measurable d :
  measurable d ->
  measurable
    (Dimensions.make
       (effectiveW (autoOrient (Dimensions.x d) (Dimensions.y d) (Dimensions.z d)))
       (effectiveH (autoOrient (Dimensions.x d) (Dimensions.y d) (Dimensions.z d)))
       (effectiveD (autoOrient (Dimensions.x d) (Dimensions.y d) (Dimensions.z d)))).
Proof.
  unfold measurable, autoOrient.
  destruct (rawZ_isTallest _ _ _); [| destruct (rawX_isTallest _ _ _)]; simpl; auto;
    destruct (strict_eq_zero (Dimensions.x d)), (strict_eq_zero (Dimensions.y d)),
      (strict_eq_zero (Dimensions.z d)); auto.
Qed.

(** A box that needs a rotation is given exactly the scale of the same
    box measured upright, that is, with its effective dimensions as raw
    dimensions; and that upright box is given the zero rotation. *)
Theorem scale_of_the_upright_box
    (cbrt : float -> float) (g : Globals) (d : Dimensions.t) :
  let u := autoOrient (Dimensions.x d) (Dimensions.y d) (Dimensions.z d) in
  let upright := Dimensions.make (effectiveW u) (effectiveH u) (effectiveD u) in
  measurable d ->
  attribute "scale" (normalizeModel cbrt g (js_object upright))
  = attribute "scale" (normalizeModel cbrt g (js_object d))
  /\ attribute "orientation" (normalizeModel cbrt g (js_object upright))
     = Some (Orientation 0 0 0).
Proof.
  intros u upright Hm.
  pose proof (effective_measurable d Hm) as Hm'; fold u in Hm'; fold upright in Hm'.
  destruct (normalizeModel_measurable cbrt g d Hm) as [_ Hs].
  destruct (normalizeModel_measurable cbrt g upright Hm') as [Ho' Hs'].
  destruct (autoOrient_upright _ _ _
              (effective_not_rawZ (Dimensions.x d) (Dimensions.y d) (Dimensions.z d))
              (effective_not_rawX (Dimensions.x d) (Dimensions.y d) (Dimensions.z d)))
    as [Hr He].
  rewrite Hs, Hs', Ho'; unfold upright; cbn [Dimensions.x Dimensions.y Dimensions.z].
  fold u in Hr, He |- *.
  unfold rotation in Hr; unfold effective in He.
  injection Hr as Hx Hy Hz; injection He as Hw Hh Hd.
  rewrite Hx, Hy, Hz, Hw, Hh, Hd; split; reflexivity.
Qed.

Lemma scale_of_the_upright_box_witness :
  attribute "scale"
    (normalizeModel Math.cbrt_ref globals (js_object (Dimensions.make 0.04 0.10 0.02)))
  = attribute "scale"
      (normalizeModel Math.cbrt_ref globals (js_object (Dimensions.make 0.04 0.02 0.10)))
  /\ attribute "orientation"
       (normalizeModel Math.cbrt_ref globals (js_object (Dimensions.make 0.04 0.10 0.02)))
     = Some (Orientation 0 0 0).
Proof.
  apply (scale_of_the_upright_box Math.cbrt_ref globals (Dimensions.make 0.04 0.02 0.10));
    reflexivity.
Defined.

(** The most restrictive candidate wins: unless it had to be raised to
    the floor 0.01, the final scale exceeds none of the three
    candidates. *)
Theorem final_scale_within_candidates
    (cbrt : float -> float) (cbrt_ok : Math.cbrt_conforms cbrt)
    (effectiveW effectiveH effectiveD : float) :
  is_nan (currentVolume effectiveW effectiveH effectiveD) = false ->
  Forall
    (fun candidate =>
       (finalScale cbrt globals effectiveW effectiveH effectiveD <=? candidate) = true
       \/ finalScale cbrt globals effectiveW effectiveH effectiveD = 0.01)
    [scaleByHeight globals effectiveH; scaleByWidth globals effectiveW;
     scaleByVolume cbrt globals effectiveW effectiveH effectiveD].
Proof.
  intros Hn.
  destruct (finalScale_clamped cbrt cbrt_ok _ _ _ Hn) as [m [[_ Hmin] [Hf _]]].
  apply Forall_forall; intros c Hc; rewrite Hf; unfold clamp.
  specialize (Hmin c Hc).
  destruct (m <? 0.01); [now right |].
  destruct (5.0 <? m) eqn:E5; left; [| assumption].
  exact (leb_trans _ _ _ (ltb_leb _ _ E5) Hmin).
Qed.

Lemma final_scale_within_candidates_witness :
  Forall
    (fun candidate =>
       (finalScale Math.cbrt_ref globals 0.05 0.20 0.05 <=? candidate) = true
       \/ finalScale Math.cbrt_ref globals 0.05 0.20 0.05 = 0.01)
    [scaleByHeight globals 0.20; scaleByWidth globals 0.05;
     scaleByVolume Math.cbrt_ref globals 0.05 0.20 0.05].
Proof.
  apply (final_scale_within_candidates Math.cbrt_ref cbrt_ref_conforms 0.05 0.20 0.05);
    reflexivity.
Defined.

(** ** Facts about strings *)

Module StringFacts.

Ltac n_cases :=
  unfold is_word, is_ascii_upper, is_ascii_lower, is_ascii in *;
  repeat match goal with
  | |- context [N.leb ?a ?b] => destruct (N.leb_spec a b)
  | |- context [N.ltb ?a ?b] => destruct (N.ltb_spec a b)
  | |- context [N.eqb ?a ?b] => destruct (N.eqb_spec a b)
  | H : context [N.leb ?a ?b] |- _ => destruct (N.leb_spec a b)
  | H : context [N.eqb ?a ?b] |- _ => destruct (N.eqb_spec a b)
  end;
  simpl in *; try reflexivity; try discriminate; try lia.


Lemma is_word_capitalized c : is_word (toUpperCase_word c) = is_word c.
Proof. unfold toUpperCase_word; destruct (is_ascii_lower c) eqn:E; auto; n_cases. Qed.

Lemma toUpperCase_word_not_lower c : is_ascii_lower (toUpperCase_word c) = false.
Proof. unfold toUpperCase_word; destruct (is_ascii_lower c) eqn:E; auto; n_cases. Qed.

Lemma toUpperCase_word_fixed c : is_ascii_lower c = false -> toUpperCase_word c = c.
Proof. unfold toUpperCase_word; now intros ->. Qed.

Lemma lower_unit_capitalized c : lower_unit (toUpperCase_word c) = lower_unit c.
Proof.
  unfold toUpperCase_word; destruct (is_ascii_lower c) eqn:E; auto.
  unfold lower_unit; n_cases.
Qed.

Lemma toUpperCase_word_no_separator c :
  no_separator c = true -> no_separator (toUpperCase_word c) = true.
Proof.
  unfold no_separator, toUpperCase_word; destruct (is_ascii_lower c) eqn:E; auto.
  intros _; n_cases.
Qed.

Lemma capitalize_words_length s : forall b,
  List.length (capitalize_words b s) = List.length s.
Proof. induction s as [| c s IH]; intros b; simpl; auto. Qed.

Lemma capitalize_words_capitalized s : forall b,
  words_capitalized b (capitalize_words b s) = true.
Proof.
  induction s as [| c s IH]; intros b; simpl; auto.
  apply andb_true_iff; split.
  - destruct (is_word c && negb b) eqn:E.
    + now rewrite toUpperCase_word_not_lower, andb_false_r.
    + now rewrite E.
  - destruct (is_word c && negb b); [rewrite is_word_capitalized |]; apply IH.
Qed.

Lemma capitalize_words_idempotent s : forall b,
  capitalize_words b (capitalize_words b s) = capitalize_words b s.
Proof.
  induction s as [| c s IH]; intros b; simpl; auto.
  destruct (is_word c && negb b) eqn:E.
  - rewrite is_word_capitalized, IH.
    rewrite (toUpperCase_word_fixed _ (toUpperCase_word_not_lower c)).
    now destruct (is_word c && negb b).
  - now rewrite E, IH.
Qed.

Lemma capitalize_words_lower s : forall b,
  map lower_unit (capitalize_words b s) = map lower_unit s.
Proof.
  induction s as [| c s IH]; intros b; simpl; auto.
  rewrite IH; destruct (is_word c && negb b); [rewrite lower_unit_capitalized |];
    reflexivity.
Qed.

Lemma capitalize_words_no_separator s : forall b,
  forallb no_separator s = true ->
  forallb no_separator (capitalize_words b s) = true.
Proof.
  induction s as [| c s IH]; intros b H; simpl in *; auto.
  apply andb_true_iff in H; destruct H as [Hc Hs].
  rewrite (IH _ Hs), andb_true_r.
  destruct (is_word c && negb b); auto.
  now apply toUpperCase_word_no_separator.
Qed.

Lemma separators_to_spaces_no_separator s :
  forallb no_separator (separators_to_spaces s) = true.
Proof.
  induction s as [| c s IH]; simpl; auto.
  rewrite IH, andb_true_r; unfold no_separator.
  destruct (N.eqb_spec c 45); simpl; auto.
  destruct (N.eqb_spec c 95); simpl; auto.
  destruct (N.eqb_spec c 45), (N.eqb_spec c 95); simpl; congruence.
Qed.

Lemma separators_to_spaces_fixed s :
  forallb no_separator s = true -> separators_to_spaces s = s.
Proof.
  induction s as [| c s IH]; simpl; auto; intros H.
  apply andb_true_iff in H; destruct H as [Hc Hs].
  rewrite (IH Hs); unfold no_separator in Hc.
  destruct (N.eqb c 45), (N.eqb c 95); simpl in *; congruence.
Qed.

(** *** Trimming *)

Lemma white_space_not_capital c : is_white_space c = true -> is_ascii_upper c = false.
Proof.
  intros H; unfold is_ascii_upper.
  destruct (N.leb_spec 65 c); auto; destruct (N.leb_spec c 90); auto.
  unfold is_white_space in H; simpl existsb in H.
  repeat (rewrite (proj2 (N.eqb_neq c _)) in H by lia).
  rewrite (proj2 (N.leb_gt 8192 c)) in H by lia; discriminate.
Qed.

Lemma white_space_lower s :
  forallb is_white_space s = true -> map lower_unit s = s.
Proof.
  induction s as [| c s IH]; simpl; auto; intros H.
  apply andb_true_iff in H; destruct H as [Hc Hs].
  rewrite (IH Hs); unfold lower_unit.
  now rewrite (white_space_not_capital c Hc).
Qed.

Lemma trim_start_white s t :
  forallb is_white_space s = true -> trim_start (s ++ t) = trim_start t.
Proof.
  induction s as [| c s IH]; simpl; auto; intros H.
  apply andb_true_iff in H; destruct H as [-> Hs]; auto.
Qed.

Lemma trim_start_head c s :
  is_white_space c = false -> trim_start (c :: s) = c :: s.
Proof. simpl; now intros ->. Qed.

Lemma forallb_rev {A} (f : A -> bool) l : forallb f (rev l) = forallb f l.
Proof.
  induction l as [| a l IH]; simpl; auto.
  now rewrite forallb_app, IH; simpl; rewrite andb_true_r, andb_comm.
Qed.

Lemma trim_white s : forallb is_white_space s = true -> trim s = [].
Proof.
  intros H; unfold trim.
  rewrite <- (app_nil_r s), (trim_start_white s [] H); reflexivity.
Qed.

Lemma trim_padded pre core post :
  forallb is_white_space pre = true -> forallb is_white_space post = true ->
  existsb is_white_space core = false ->
  trim (pre ++ core ++ post) = core.
Proof.
  intros Hpre Hpost Hcore; unfold trim.
  rewrite (trim_start_white pre _ Hpre).
  destruct core as [| c core].
  - simpl; rewrite <- (app_nil_r post), (trim_start_white post [] Hpost); reflexivity.
  - simpl in Hcore; apply orb_false_iff in Hcore; destruct Hcore as [Hc Hrest].
    change ((c :: core) ++ post) with (c :: (core ++ post)).
    rewrite (trim_start_head c _ Hc).
    change (c :: core ++ post) with ((c :: core) ++ post).
    rewrite rev_app_distr, trim_start_white by now rewrite forallb_rev.
    assert (Hl : existsb is_white_space (rev (c :: core)) = false).
    { apply not_true_is_false; intros E; apply existsb_exists in E.
      destruct E as [x [Hin Hx]]; apply in_rev in Hin.
      assert (E : existsb is_white_space (c :: core) = true)
        by (apply existsb_exists; eauto).
      simpl in E; rewrite Hc, Hrest in E; discriminate. }
    destruct (rev (c :: core)) as [| x l] eqn:Er.
    + apply (f_equal (@List.length N)) in Er; rewrite length_rev in Er; discriminate.
    + simpl in Hl; apply orb_false_iff in Hl; destruct Hl as [Hx _].
      rewrite (trim_start_head x l Hx), <- Er; apply rev_involutive.
Qed.




(** *** The registry *)


Lemma registered_key key config :
  In (key, config) RESTAURANTS ->
  own_property key RESTAURANTS = Some config
  /\ existsb is_white_space key = false
  /\ key <> [].
Proof.
  unfold RESTAURANTS; simpl.
  intros [H | [H | [H | [H | [H | [H | []]]]]]]; injection H as <- <-;
    (split; [reflexivity | split; [reflexivity | discriminate]]).
Qed.

Lemma toLowerCase_ref_conforms : toLowerCase_conforms toLowerCase_ref.
Proof.
  split; intros s; unfold toLowerCase_ref; [reflexivity |].
  induction s as [| c s IH]; simpl; auto.
  rewrite IH, orb_false_r; unfold lower_unit.
  destruct (is_ascii_upper c) eqn:E; [n_cases | exact E].
Qed.

End StringFacts.

(** ** The display name *)

Import StringFacts.

(** Only the extension is ever removed: the display name has the length
    of the file name, less the four code units of a final [.glb] in any
    letter case. *)
Theorem formatModelName_length (filename : js_string) :
  List.length (formatModelName filename)
  = if ends_with_glb filename then (List.length filename - 4)%nat
    else List.length filename.
Proof.
  unfold formatModelName, separators_to_spaces, strip_glb.
  rewrite capitalize_words_length, length_map.
  destruct (ends_with_glb filename); [| reflexivity].
  rewrite length_firstn; lia.
Qed.

(** No hyphen and no underscore is left in a display name. *)
Theorem formatModelName_no_separator (filename : js_string) :
  forallb no_separator (formatModelName filename) = true.
Proof.
  unfold formatModelName.
  apply capitalize_words_no_separator, separators_to_spaces_no_separator.
Qed.

(** Every word of a display name starts with a capital, a digit or an
    underscore: never with a lower-case letter. *)
Theorem formatModelName_capitalized (filename : js_string) :
  words_capitalized false (formatModelName filename) = true.
Proof. unfold formatModelName; apply capitalize_words_capitalized. Qed.

Lemma lower_unit_space c : lower_unit c = 32%N -> c = 32%N.
Proof. unfold lower_unit; destruct (is_ascii_upper c) eqn:E; [n_cases | auto]. Qed.

Lemma strip_glb_nth filename i :
  (i < List.length (strip_glb filename))%nat ->
  nth i (strip_glb filename) 0%N = nth i filename 0%N.
Proof.
  unfold strip_glb; destruct (ends_with_glb filename); [| reflexivity].
  rewrite length_firstn, nth_firstn; intros H.
  destruct (Nat.ltb_spec i (List.length filename - 4)); [reflexivity | lia].
Qed.

(** The display name is the file name cut before a final [.glb], read
    position by position: where the file name has a hyphen or an
    underscore the display name has a space, and everywhere else it has
    the same code unit up to letter case.  Nothing is inserted, moved or
    dropped before the end, directories and dots included. *)
Theorem formatModelName_keeps_text (filename : js_string) :
  List.length (formatModelName filename)
  = (if ends_with_glb filename then (List.length filename - 4)%nat
     else List.length filename)
  /\ forall i, (i < List.length (formatModelName filename))%nat ->
       if N.eqb (nth i filename 0%N) 45 || N.eqb (nth i filename 0%N) 95
       then nth i (formatModelName filename) 0%N = 32%N
       else lower_unit (nth i (formatModelName filename) 0%N)
            = lower_unit (nth i filename 0%N).
Proof.
  assert (Hlen : List.length (formatModelName filename)
                 = List.length (strip_glb filename))
    by (unfold formatModelName, separators_to_spaces;
        now rewrite capitalize_words_length, length_map).
  split.
  - rewrite Hlen; unfold strip_glb.
    destruct (ends_with_glb filename); [| reflexivity].
    rewrite length_firstn; lia.
  - intros i Hi; rewrite Hlen in Hi.
    assert (E : lower_unit (nth i (formatModelName filename) 0%N)
                = lower_unit
                    (if N.eqb (nth i filename 0%N) 45 || N.eqb (nth i filename 0%N) 95
                     then 32%N else nth i filename 0%N)).
    { rewrite <- (strip_glb_nth filename i Hi).
      transitivity (nth i (map lower_unit (formatModelName filename)) (lower_unit 0%N));
        [symmetry; apply map_nth |].
      unfold formatModelName; rewrite capitalize_words_lower, map_nth; f_equal.
      exact (map_nth (fun c => if N.eqb c 45 || N.eqb c 95 then 32%N else c)
               (strip_glb filename) 0%N i). }
    destruct (N.eqb (nth i filename 0%N) 45 || N.eqb (nth i filename 0%N) 95);
      [now apply lower_unit_space | exact E].
Qed.

Lemma formatModelName_keeps_text_witness :
  nth 7 (formatModelName (lit "chicken_tikka-masala.GLB")) 0%N = 32%N
  /\ lower_unit (nth 8 (formatModelName (lit "chicken_tikka-masala.GLB")) 0%N)
     = lower_unit (nth 8 (lit "chicken_tikka-masala.GLB") 0%N).
Proof.
  split.
  - exact (proj2 (formatModelName_keeps_text (lit "chicken_tikka-masala.GLB")) 7%nat
             ltac:(vm_compute; lia)).
  - exact (proj2 (formatModelName_keeps_text (lit "chicken_tikka-masala.GLB")) 8%nat
             ltac:(vm_compute; lia)).
Defined.

(** Formatting a display name again changes nothing, unless the name
    itself ends in [.glb]: then one more extension goes, as in
    [a.glb.glb], which gives [A.Glb] and then [A]. *)
Theorem formatModelName_idempotent (filename : js_string) :
  ends_with_glb (formatModelName filename) = false ->
  formatModelName (formatModelName filename) = formatModelName filename.
Proof.
  intros H; unfold formatModelName at 1; unfold strip_glb; rewrite H.
  rewrite separators_to_spaces_fixed
    by apply capitalize_words_no_separator, separators_to_spaces_no_separator.
  unfold formatModelName; apply capitalize_words_idempotent.
Qed.

Lemma formatModelName_idempotent_witness :
  formatModelName (formatModelName (lit "chicken_tikka-masala.GLB"))
  = formatModelName (lit "chicken_tikka-masala.GLB").
Proof.
  apply (formatModelName_idempotent (lit "chicken_tikka-masala.GLB")); reflexivity.
Defined.

Lemma ends_with_extension name extension :
  map lower_unit extension = lit ".glb" ->
  ends_with_glb (name ++ extension) = true
  /\ firstn (List.length (name ++ extension) - 4) (name ++ extension) = name.
Proof.
  intros H.
  destruct extension as [| dot [| g [| l [| b [| x rest]]]]]; try discriminate.
  injection H as Hdot Hg Hl Hb; split.
  - unfold ends_with_glb; rewrite rev_app_distr; simpl.
    rewrite Hg, Hl, Hb; simpl.
    unfold lower_unit in Hdot; destruct (is_ascii_upper dot) eqn:E; [n_cases |].
    now rewrite Hdot.
  - rewrite length_app; simpl.
    replace (List.length name + 4 - 4)%nat with (List.length name + 0)%nat by lia.
    rewrite firstn_app_2; simpl; apply app_nil_r.
Qed.

(** The extension is recognised in any letter case and nothing before it
    is touched by the removal: a name followed by [.glb], [.GLB],
    [.Glb], ... is displayed as the name alone would be, were it kept
    whole. *)
Theorem formatModelName_extension (name extension : js_string) :
  map lower_unit extension = lit ".glb" ->
  formatModelName (name ++ extension)
  = capitalize_words false (separators_to_spaces name).
Proof.
  intros H; destruct (ends_with_extension name extension H) as [He Hf].
  unfold formatModelName, strip_glb; now rewrite He, Hf.
Qed.

Lemma formatModelName_extension_witness :
  formatModelName (lit "butter-chicken" ++ lit ".GlB")
  = capitalize_words false (separators_to_spaces (lit "butter-chicken")).
Proof.
  apply (formatModelName_extension (lit "butter-chicken") (lit ".GlB")); reflexivity.
Defined.

Example display_names :
  formatModelName (lit "assets/Samosa.glb") = lit "Assets/Samosa"
  /\ formatModelName (lit "chicken_tikka-masala.GLB") = lit "Chicken Tikka Masala"
  /\ formatModelName (lit "a.glb.glb") = lit "A.Glb"
  /\ formatModelName (lit "A.Glb") = lit "A"
  /\ formatModelName (lit "glb") = lit "Glb"
  /\ formatModelName [] = [].
Proof. repeat split. Qed.

(** ** Choosing the restaurant *)

Lemma or_else_nonempty value fallback :
  value <> [] -> or_else (Some value) fallback = value.
Proof. destruct value; [congruence | reflexivity]. Qed.

(** Without an [r] parameter, with an empty one, or with one made of
    ASCII white space only, the page takes the default branding. *)
Theorem missing_restaurant_is_default
    (toLowerCase : js_string -> js_string)
    (toLowerCase_ok : toLowerCase_conforms toLowerCase)
    (blank : js_string) (model : option js_string) :
  forallb is_white_space blank = true -> forallb is_ascii blank = true ->
  init_config toLowerCase None model = own default_restaurant
  /\ init_config toLowerCase (Some blank) model = own default_restaurant.
Proof.
  intros Hw Ha; unfold init_config, getParams; cbn [Params.restaurant].
  assert (Hd : get_property (trim (toLowerCase (lit "default")))
               = Some (own default_restaurant))
    by (rewrite (lower_ascii _ toLowerCase_ok) by reflexivity; reflexivity).
  split; [cbn [or_else]; now rewrite Hd |].
  destruct blank as [| c rest]; [cbn [or_else]; now rewrite Hd |].
  cbn [or_else].
  rewrite (lower_ascii _ toLowerCase_ok _ Ha), (white_space_lower _ Hw).
  now rewrite (trim_white _ Hw).
Qed.

Lemma missing_restaurant_is_default_witness :
  init_config toLowerCase_ref None None = own default_restaurant
  /\ init_config toLowerCase_ref (Some (lit "   ")) None = own default_restaurant.
Proof.
  apply (missing_restaurant_is_default toLowerCase_ref toLowerCase_ref_conforms
           (lit "   ") None); reflexivity.
Defined.

(** A registered restaurant is found whatever the letter case of the
    [r] parameter and whatever ASCII white space surrounds it. *)
Theorem restaurant_ignores_case_and_padding
    (toLowerCase : js_string -> js_string)
    (toLowerCase_ok : toLowerCase_conforms toLowerCase)
    (before r after key : js_string) (config : Restaurant.t)
    (model : option js_string) :
  In (key, config) RESTAURANTS ->
  map lower_unit r = key -> forallb is_ascii r = true ->
  forallb is_white_space before = true -> forallb is_ascii before = true ->
  forallb is_white_space after = true -> forallb is_ascii after = true ->
  init_config toLowerCase (Some (before ++ r ++ after)) model = own config.
Proof.
  intros Hin Hr Har Hwb Hab Hwa Haa.
  destruct (registered_key key config Hin) as [Hown [Hkey Hne]].
  unfold init_config, getParams; cbn [Params.restaurant].
  rewrite or_else_nonempty.
  - rewrite (lower_ascii _ toLowerCase_ok)
      by (rewrite !forallb_app, Har, Hab, Haa; reflexivity).
    rewrite !map_app, Hr, (white_space_lower _ Hwb), (white_space_lower _ Hwa).
    rewrite (trim_padded _ _ _ Hwb Hwa Hkey).
    unfold get_property; now rewrite Hown.
  - intros E; apply app_eq_nil in E; destruct E as [_ E].
    apply app_eq_nil in E; destruct E as [E _].
    rewrite E in Hr; simpl in Hr; congruence.
Qed.

Lemma restaurant_ignores_case_and_padding_witness :
  init_config toLowerCase_ref (Some (lit "  " ++ lit "TajMahal" ++ lit " ")) None
  = own (Restaurant.make "Taj Mahal Restaurant" "assets/logos/tajmahal.png"
           "#d4a843" "#b8922f" "#0d0d0d" "#1c1a17").
Proof.
  apply (restaurant_ignores_case_and_padding toLowerCase_ref toLowerCase_ref_conforms
           (lit "  ") (lit "TajMahal") (lit " ") (lit "tajmahal"));
    try reflexivity.
  simpl; auto.
Defined.




(** ** The logo fallback *)

(** However many times the logo fails to load, the fallback runs once:
    after the first error the source is the default logo, the handler is
    gone, and further errors change nothing; the alternative text is
    never touched. *)
Theorem logo_fallback_runs_once (config : Restaurant.t) (errors : nat) :
  Nat.iter (S errors) logo_error (init_logo config)
  = Logo.make "assets/logos/default.png" (Restaurant.name config ++ " Logo")%string
      false.
Proof.
  induction errors as [| n IH]; [reflexivity |].
  change (Nat.iter (S (S n)) logo_error (init_logo config))
    with (logo_error (Nat.iter (S n) logo_error (init_logo config))).
  rewrite IH; reflexivity.
Qed.

(** ** Several loads on one viewer *)

Lemma attribute_app name t1 t2 :
  attribute name (t1 ++ t2)
  = match attribute name t2 with
    | Some v => Some v
    | None => attribute name t1
    end.
Proof.
  induction t1 as [| e t1 IH]; simpl.
  - now destruct (attribute name t2).
  - rewrite IH; destruct (attribute name t2); reflexivity.
Qed.

Lemma session_snoc cbrt g loads last :
  session cbrt g (loads ++ [last])
  = session cbrt g loads ++ on_load cbrt g last.
Proof. unfold session; rewrite flat_map_app; simpl; now rewrite app_nil_r. Qed.

Lemma on_load_attribute cbrt g name dimensions :
  attribute name (on_load cbrt g dimensions)
  = attribute name (normalizeModel cbrt g dimensions).
Proof.
  unfold on_load; cbn [attribute].
  now destruct (attribute name (normalizeModel cbrt g dimensions)).
Qed.

Lemma normalizeModel_writes cbrt g last :
  if existsb is_setAttribute (normalizeModel cbrt g last)
  then exists d, last = js_object d /\ measurable d
  else normalizeModel cbrt g last = [console_warn skip_warning].
Proof.
  destruct last as [| | d]; try reflexivity.
  unfold normalizeModel, measurable.
  destruct (strict_eq_zero (Dimensions.x d) && strict_eq_zero (Dimensions.y d)
            && strict_eq_zero (Dimensions.z d)) eqn:E; simpl; [reflexivity |].
  exists d; split; [reflexivity | exact E].
Qed.

(** A load that is skipped resets nothing: after it the renderer still
    holds the orientation and the scale of the loads before it. *)
Theorem skipped_load_keeps_attributes
    (cbrt : float -> float) (g : Globals)
    (loads : list js_dimensions) (last : js_dimensions) (name : string) :
  existsb is_setAttribute (normalizeModel cbrt g last) = false ->
  attribute name (session cbrt g (loads ++ [last]))
  = attribute name (session cbrt g loads).
Proof.
  intros H; rewrite session_snoc, attribute_app, on_load_attribute.
  pose proof (normalizeModel_writes cbrt g last) as Hs; rewrite H in Hs.
  now rewrite Hs.
Qed.

Lemma skipped_load_keeps_attributes_witness :
  attribute "scale"
    (session Math.cbrt_ref globals
       ([js_object (Dimensions.make 0.05 0.20 0.05)] ++ [js_null]))
  = attribute "scale"
      (session Math.cbrt_ref globals [js_object (Dimensions.make 0.05 0.20 0.05)]).
Proof.
  apply (skipped_load_keeps_attributes Math.cbrt_ref globals
           [js_object (Dimensions.make 0.05 0.20 0.05)] js_null "scale");
    reflexivity.
Defined.

(** After any sequence of loads that ends with a measurable box, the
    renderer holds the orientation and the scale computed for that last
    box alone: nothing of the earlier loads is left. *)
Theorem last_measurable_load_wins
    (cbrt : float -> float) (g : Globals)
    (loads : list js_dimensions) (d : Dimensions.t) :
  measurable d ->
  attribute "orientation" (session cbrt g (loads ++ [js_object d]))
  = attribute "orientation" (normalizeModel cbrt g (js_object d))
  /\ attribute "scale" (session cbrt g (loads ++ [js_object d]))
     = attribute "scale" (normalizeModel cbrt g (js_object d)).
Proof.
  intros Hm; rewrite session_snoc, !attribute_app, !on_load_attribute.
  destruct (normalizeModel_measurable cbrt g d Hm) as [-> ->]; split; reflexivity.
Qed.

Lemma last_measurable_load_wins_witness :
  attribute "orientation"
    (session Math.cbrt_ref globals
       ([js_object (Dimensions.make 0.04 0.02 0.10)]
        ++ [js_object (Dimensions.make 0.05 0.20 0.05)]))
  = attribute "orientation"
      (normalizeModel Math.cbrt_ref globals (js_object (Dimensions.make 0.05 0.20 0.05)))
  /\ attribute "scale"
       (session Math.cbrt_ref globals
          ([js_object (Dimensions.make 0.04 0.02 0.10)]
           ++ [js_object (Dimensions.make 0.05 0.20 0.05)]))
     = attribute "scale"
         (normalizeModel Math.cbrt_ref globals
            (js_object (Dimensions.make 0.05 0.20 0.05))).
Proof.
  apply (last_measurable_load_wins Math.cbrt_ref globals
           [js_object (Dimensions.make 0.04 0.02 0.10)]
           (Dimensions.make 0.05 0.20 0.05)); reflexivity.
Defined.

(** Orientation and scale go together: after any sequence of loads the
    renderer holds both or neither, the orientation attribute holding
    three angles and the scale attribute one uniform factor. *)
Theorem attributes_are_paired
    (cbrt : float -> float) (g : Globals) (loads : list js_dimensions) :
  match attribute "orientation" (session cbrt g loads),
        attribute "scale" (session cbrt g loads) with
  | Some (Orientation _ _ _), Some (UniformScale _) => True
  | None, None => True
  | _, _ => False
  end.
Proof.
  induction loads as [| last loads IH] using rev_ind; [exact I |].
  rewrite session_snoc, !attribute_app, !on_load_attribute.
  pose proof (normalizeModel_writes cbrt g last) as Hs.
  destruct (existsb is_setAttribute (normalizeModel cbrt g last)).
  - destruct Hs as [d [-> Hm]].
    destruct (normalizeModel_measurable cbrt g d Hm) as [-> ->]; exact I.
  - rewrite Hs; exact IH.
Qed.

Example default_page :
  init_config toLowerCase_ref None None = own default_restaurant
  /\ init_displayName toLowerCase_ref None None = lit "Assets/Samosa"
  /\ init_displayName toLowerCase_ref None (Some (lit "assets/paneer-tikka.glb"))
     = lit "Assets/Paneer Tikka".
Proof. repeat split. Qed.
